(** * django-spillway: feature documents and map assembly

    A shallow embedding of [spillway/carto.py] (map, layer and style
    assembly, raster colour stops), [spillway/collections.py] (GeoJSON
    feature documents, coercion and serialization) and the comma
    separated fields of [spillway/forms/fields.py], with the properties
    of the specification, and further properties of the code, stated and
    proved over it. *)

From Stdlib Require Import QArith Ascii String.
From Stdlib Require Import Decimal DecimalString DecimalPos DecimalZ DecimalFacts.
From stdpp Require Import gmap strings list fin_maps sorting.

Local Open Scope string_scope.
Local Open Scope list_scope.

(** ** Exceptions and fallible results *)

(** The Python exceptions that the modelled code can raise. *)
Inductive exn :=
| AttributeError
| KeyError
| TypeError
| ValueError
| IndexError
| RuntimeError
| Unmodelled.   (* stands for Python behaviour that the embedding leaves out *)

Inductive result (A : Type) : Type :=
| Ok (a : A)
| Raise (e : exn).
Arguments Ok {A} a.
Arguments Raise {A} e.

Global Instance result_ret : MRet result := λ A a, Ok a.
Global Instance result_bind : MBind result := λ A B k r,
  match r with
  | Ok a => k a
  | Raise e => Raise e
  end.

(** * Map, layer and style assembly ([spillway/carto.py]) *)

Module Carto.

(** ** The rendering backend (mapnik), as far as the code drives it *)

Inductive Color :=
| ColorName (s : string)            (* mapnik.Color(color) *)
| ColorRGBA (r g b a : Z).          (* mapnik.Color(r, g, b, a) *)

Inductive ColorizerMode := COLORIZER_LINEAR | COLORIZER_DISCRETE | COLORIZER_EXACT.

(** A raster colorizer; [stops] are the stops handed over by [add_stop],
    oldest first. *)
Record RasterColorizer := {
  default_mode : ColorizerMode;
  default_color : Color;
  stops : list (Q * Color)
}.

Inductive Symbolizer :=
| PointSymbolizer
| LineSymbolizer
| PolygonSymbolizer
| RasterSymbolizer (colorizer : RasterColorizer).

Inductive DataGeometryType := Unknown | Point | LineString | Polygon | Collection.

Inductive Datasource :=
| DbSource (table geometry_field : string) (gtype : DataGeometryType)
| Gdal (file : string) (band : Z).

(** Symbolizers are objects: a layer and the rule of its style hold the
    same one.  They live in a heap and are referred to by their index. *)
Definition loc := nat.

Record Rule := { symbols : list loc }.
Record Style := { rules : list Rule }.

(** mapnik.Layer *)
Record MLayer := {
  name : string;
  lsrs : string;
  datasource : Datasource;
  styles : list string
}.

Definition Box2d : Type := Q * Q * Q * Q.

(** mapnik.Map; the style registry maps a name to its Style. *)
Record MapnikMap := {
  width : Z;
  height : Z;
  buffer_size : Z;
  srs : string;
  map_styles : gmap string Style;
  layers : list MLayer;
  extent : option Box2d
}.

Definition mapnik_Map (w h : Z) : MapnikMap :=
  {| width := w; height := h; buffer_size := 0;
     srs := "+proj=longlat +ellps=WGS84 +datum=WGS84 +no_defs";
     map_styles := ∅; layers := []; extent := None |}.

(** [Map.find_style] raises KeyError for an unknown name. *)
Definition find_style (m : MapnikMap) (n : string) : result Style :=
  match map_styles m !! n with
  | Some s => Ok s
  | None => Raise KeyError
  end.

(** [Map.append_style] registers a style under a free name and leaves the
    registry alone when the name is taken. *)
Definition append_style (m : MapnikMap) (n : string) (s : Style) : MapnikMap :=
  match map_styles m !! n with
  | Some _ => m
  | None =>
      {| width := width m; height := height m; buffer_size := buffer_size m;
         srs := srs m; map_styles := <[n := s]> (map_styles m);
         layers := layers m; extent := extent m |}
  end.

Definition zoom_to_box (m : MapnikMap) (b : Box2d) : MapnikMap :=
  {| width := width m; height := height m; buffer_size := buffer_size m;
     srs := srs m; map_styles := map_styles m;
     layers := layers m; extent := Some b |}.

Definition append_layer (m : MapnikMap) (l : MLayer) : MapnikMap :=
  {| width := width m; height := height m; buffer_size := buffer_size m;
     srs := srs m; map_styles := map_styles m;
     layers := layers m ++ [l]; extent := extent m |}.

Definition add_stop (c : RasterColorizer) (value : Q) (color : Color)
  : RasterColorizer :=
  {| default_mode := default_mode c; default_color := default_color c;
     stops := stops c ++ [(value, color)] |}.

(** ** External collaborators *)

(** A raster store: what [RasterLayer] reads from it, and its binning
    operation [linear(limits, k)]. *)
Record RasterStore := {
  rs_str : string;                  (* str(obj) *)
  rs_proj4 : string;                (* SpatialReference(obj.srs).proj4 *)
  image_path : string;              (* obj.image.path *)
  linear : option (list Q) → nat → result (list Q)
}.

(** A vector queryset: what [Layer.__init__] reads from it. *)
Record VectorQuerySet := {
  db_table : string;
  geo_field : string;
  vq_proj4 : string;
  geometry_type : DataGeometryType
}.

(** What [Map.layer] is given: a vector queryset, which has a [geojson]
    attribute, or a raster store, which has none. *)
Inductive queryset :=
| QVector (q : VectorQuerySet)
| QRaster (rs : RasterStore).

(** A geometry as [zoom_bbox] uses it: its length decides its truth value. *)
Record Geometry := {
  geom_len : nat;
  area : Q;
  geom_extent : Box2d;
  geom_srs : string
}.

(** The value of the form's [bbox]: BoundingBoxField yields an empty list
    for unusable input and a polygon otherwise. *)
Inductive bbox_value :=
| BBoxEmptyList
| BBoxGeom (g : Geometry).

Record FormData := {
  style : option string;
  bbox : option bbox_value;
  limits : option (list Q)
}.

(** The empty dict: every [get] gives None. *)
Definition no_data : FormData := {| style := None; bbox := None; limits := None |}.

Record TileForm := {
  is_valid : bool;
  cleaned_data : FormData
}.

(** ** The program state *)

(** Calls that leave the program: style registrations in the map, and
    binning requests to a raster store. *)
Inductive event :=
| EvAppendStyle (n : string)
| EvLinear (store : string) (lims : option (list Q)) (k : nat).

Record state := {
  mmap : MapnikMap;                 (* Map.map *)
  heap : list Symbolizer;
  calls : list event
}.

Inductive LayerClass :=
| VectorLayer
| RasterLayer (_rstore : RasterStore).

(** A [Layer] object. *)
Record Layer := {
  cls : LayerClass;
  _layer : MLayer;
  stylename : string;
  _symbolizer : option loc
}.

(** [style or default] on an optional string. *)
Definition str_or (s : option string) (d : string) : string :=
  match s with
  | Some "" | None => d
  | Some v => v
  end.

Section Carto.

(** [colors.colormap]: the colour ramp registered for a style name. *)
Variable colormap : gmap string (list string).

(** [mapnik.load_map] on the map template: the map as loaded, and the
    symbolizers of its styles. *)
Variable load_map : MapnikMap → result (MapnikMap * list Symbolizer).

(** [bbox.transform(srs)]. *)
Variable transform : Geometry → string → Geometry.

(** Map.__init__ *)
Definition Map_init : result state :=
  let m := mapnik_Map 256 256 in
  '(m, h) ← match load_map m with
            | Ok mh => Ok mh
            | Raise RuntimeError => Ok (m, [])
            | Raise e => Raise e
            end;
  Ok {| mmap := {| width := width m; height := height m; buffer_size := 128;
                   srs := "+init=epsg:3857"; map_styles := map_styles m;
                   layers := layers m; extent := extent m |};
        heap := h; calls := [] |}.

(** Layer.__init__, where [make_dbsource] returns: the datasource is the
    one of the table and its geometry field.  The errors of
    [make_dbsource], embedded further down, are left out of the layer. *)
Definition VectorLayer_init (q : VectorQuerySet) (sty : option string) : Layer :=
  let table := db_table q in
  let layer := {| name := table; lsrs := vq_proj4 q;
                  datasource := DbSource table (geo_field q) (geometry_type q);
                  styles := [] |} in
  {| cls := VectorLayer; _layer := layer;
     stylename := str_or sty (name layer); _symbolizer := None |}.

(** RasterLayer.__init__ *)
Definition RasterLayer_init (obj : RasterStore) (band : Z) (sty : option string)
  : Layer :=
  let layer := {| name := rs_str obj; lsrs := rs_proj4 obj;
                  datasource := Gdal (image_path obj) band;
                  styles := [] |} in
  {| cls := RasterLayer obj; _layer := layer;
     stylename := str_or sty "Spectral_r"; _symbolizer := None |}.

(** RasterLayer.symbolizer and VectorLayer.symbolizer *)
Definition symbolizer (l : Layer) : Symbolizer :=
  match cls l with
  | RasterLayer _ =>
      RasterSymbolizer {| default_mode := COLORIZER_LINEAR;
                          default_color := ColorRGBA 0 0 0 0;
                          stops := [] |}
  | VectorLayer =>
      match datasource (_layer l) with
      | DbSource _ _ Point => PointSymbolizer
      | DbSource _ _ LineString => LineSymbolizer
      | _ => PolygonSymbolizer
      end
  end.

(** Layer.style: builds the symbolizer, keeps it in the layer and puts it
    in the one rule of a new style. *)
Definition Layer_style (l : Layer) (st : state) : Style * Layer * state :=
  let p := length (heap st) in
  ({| rules := [ {| symbols := [p] |} ] |},
   {| cls := cls l; _layer := _layer l; stylename := stylename l;
      _symbolizer := Some p |},
   {| mmap := mmap st; heap := heap st ++ [symbolizer l]; calls := calls st |}).

Definition styles_append (l : Layer) (n : string) : Layer :=
  {| cls := cls l;
     _layer := {| name := name (_layer l); lsrs := lsrs (_layer l);
                  datasource := datasource (_layer l);
                  styles := styles (_layer l) ++ [n] |};
     stylename := stylename l; _symbolizer := _symbolizer l |}.

(** Map.layer *)
Definition Map_layer (q : queryset) (sty : option string) (st : state)
  : result (Layer * state) :=
  let layer :=
    match q with
    | QVector v => VectorLayer_init v sty       (* hasattr(queryset, 'geojson') *)
    | QRaster r => RasterLayer_init r 1 sty
    end in
  '(layer, st) ←
    match find_style (mmap st) (stylename layer) with
    | Ok _ => Ok (layer, st)
    | Raise KeyError =>
        let '(s, layer, st) := Layer_style layer st in
        Ok (layer,
            {| mmap := append_style (mmap st) (stylename layer) s;
               heap := heap st;
               calls := calls st ++ [EvAppendStyle (stylename layer)] |})
    | Raise e => Raise e
    end;
  let layer := styles_append layer (stylename layer) in
  Ok (layer, {| mmap := append_layer (mmap st) (_layer layer);
                heap := heap st; calls := calls st |}).

(** Map.zoom_bbox: [if bbox and bbox.area]. *)
Definition zoom_bbox (b : option bbox_value) (st : state) : state :=
  match b with
  | Some (BBoxGeom g) =>
      if (0 <? geom_len g)%nat && negb (Qeq_bool (area g) 0) then
        let g' := transform g (srs (mmap st)) in
        {| mmap := zoom_to_box (mmap st) (geom_extent g');
           heap := heap st; calls := calls st |}
      else st
  | _ => st
  end.

(** [symbolizer.colorizer.add_stop(value, mapnik.Color(color))] on the
    layer's symbolizer: None has no [colorizer], nor has a symbolizer
    that is not a raster one. *)
Definition stop_step (symb : option loc) (st : state) (vc : Q * string)
  : result state :=
  match symb with
  | None => Raise AttributeError
  | Some p =>
      match heap st !! p with
      | Some (RasterSymbolizer c) =>
          Ok {| mmap := mmap st;
                heap := <[p := RasterSymbolizer (add_stop c vc.1 (ColorName vc.2))]>
                          (heap st);
                calls := calls st |}
      | _ => Raise AttributeError
      end
  end.

(** The loop of [add_colorizer_stops] over [zip(bins, rcolors)]. *)
Fixpoint stop_loop (symb : option loc) (pairs : list (Q * string)) (st : state)
  : result state :=
  match pairs with
  | [] => Ok st
  | vc :: rest => st' ← stop_step symb st vc; stop_loop symb rest st'
  end.

(** RasterLayer.add_colorizer_stops *)
Definition add_colorizer_stops (l : Layer) (lims : option (list Q)) (st : state)
  : result state :=
  match cls l with
  | VectorLayer => Raise AttributeError
  | RasterLayer rstore =>
      match colormap !! stylename l with
      | Some (c :: cs) =>
          let rcolors := c :: cs in
          let st := {| mmap := mmap st; heap := heap st;
                       calls := calls st
                                ++ [EvLinear (rs_str rstore) lims (length rcolors)] |} in
          bins ← linear rstore lims (length rcolors);
          stop_loop (_symbolizer l) (zip bins rcolors) st
      | _ => Ok st
      end
  end.

Definition is_raster (l : Layer) : bool :=
  match cls l with RasterLayer _ => true | VectorLayer => false end.

(** The loop of [build_map] over the querysets. *)
Fixpoint build_layers (qs : list queryset) (sty : option string)
  (lims : option (list Q)) (st : state) : result state :=
  match qs with
  | [] => Ok st
  | q :: rest =>
      '(layer, st) ← Map_layer q sty st;
      st ← (if is_raster layer then add_colorizer_stops layer lims st else Ok st);
      build_layers rest sty lims st
  end.

(** [tileform.cleaned_data if tileform.is_valid() else {}] *)
Definition form_data (tileform : TileForm) : FormData :=
  if is_valid tileform then cleaned_data tileform else no_data.

(** build_map *)
Definition build_map (querysets : list queryset) (tileform : TileForm)
  : result state :=
  let data := form_data tileform in
  let stylename := style data in
  m ← Map_init;
  let m := zoom_bbox (bbox data) m in
  build_layers querysets stylename (limits data) m.

End Carto.

(** ** Observations on a state *)

(** The style name that [Map.layer] resolves for a queryset. *)
Definition requested_style (q : queryset) (sty : option string) : string :=
  match q with
  | QVector v => str_or sty (db_table v)
  | QRaster _ => str_or sty "Spectral_r"
  end.

(** The style names registered so far by [append_style], oldest first. *)
Definition registrations (st : state) : list string :=
  omap (λ e, match e with EvAppendStyle n => Some n | _ => None end) (calls st).

(** Every style name was registered at most once, and is in the registry. *)
Definition registered_once (st : state) : Prop :=
  NoDup (registrations st) ∧
  Forall (λ n, is_Some (map_styles (mmap st) !! n)) (registrations st).

(** A bbox that [zoom_bbox] takes for absent: None, the empty list, an
    empty geometry, or one of area zero. *)
Definition absent_or_flat (b : option bbox_value) : Prop :=
  match b with
  | None | Some BBoxEmptyList => True
  | Some (BBoxGeom g) => geom_len g = 0%nat ∨ (area g == 0)%Q
  end.

(** The stops that the loop over [zip(bins, rcolors)] hands to the
    colorizer. *)
Definition new_stops (bins : list Q) (rcolors : list string) : list (Q * Color) :=
  (λ vc : Q * string, (vc.1, ColorName vc.2)) <$> zip bins rcolors.

(** The symbolizer that [RasterLayer.symbolizer] builds, with [s] for stops. *)
Definition raster_symbolizer (s : list (Q * Color)) : Symbolizer :=
  RasterSymbolizer {| default_mode := COLORIZER_LINEAR;
                      default_color := ColorRGBA 0 0 0 0;
                      stops := s |}.

(** ** Sample inputs *)

(** Modelled from the spec: the binning of a raster store,
    [linear(limits, k)], of the repository's models, which is not among the
    sources: k evenly spaced values, from the first to the last of the
    limits, or over the range of the data when there are none. *)
Definition linspace (start stop : Q) (k : nat) : list Q :=
  match k with
  | O => []
  | S O => [start]
  | S n =>
      (λ i, Qred (start + inject_Z (Z.of_nat i) * (stop - start)
                          / inject_Z (Z.of_nat n))) <$> seq 0 k
  end.

Definition store_linear (minval maxval : Q) (lims : option (list Q)) (k : nat)
  : result (list Q) :=
  match lims with
  | Some (a :: rest) => Ok (linspace a (List.last rest a) k)
  | _ => Ok (linspace minval maxval k)
  end.

Definition dem : RasterStore :=
  {| rs_str := "dem"; rs_proj4 := "+init=epsg:4326";
     image_path := "/media/dem.tif"; linear := store_linear 0 200 |}.

Definition ramps : gmap string (list string) :=
  {[ "Spectral_r" := ["#5e4fa2"; "#ffffbf"; "#9e0142"] ]}.

(** No map template on disk: [load_map] raises RuntimeError. *)
Definition no_mapfile (m : MapnikMap) : result (MapnikMap * list Symbolizer) :=
  Raise RuntimeError.

Definition keep_srs (g : Geometry) (s : string) : Geometry := g.

Definition fresh_state : state :=
  {| mmap := mapnik_Map 256 256; heap := []; calls := [] |}.

(** A raster layer on [dem] whose symbolizer is built, in a state that
    holds it. *)
Definition dem_layer : Layer :=
  {| cls := RasterLayer dem;
     _layer := {| name := "dem"; lsrs := "+init=epsg:4326";
                  datasource := Gdal "/media/dem.tif" 1;
                  styles := ["Spectral_r"] |};
     stylename := "Spectral_r";
     _symbolizer := Some 0%nat |}.

Definition dem_state : state :=
  {| mmap := mapnik_Map 256 256; heap := [raster_symbolizer []]; calls := [] |}.

(** A map in which the style "plain" is registered already. *)
Definition plain_state : state :=
  {| mmap := append_style (mapnik_Map 256 256) "plain" {| rules := [] |};
     heap := []; calls := [] |}.

(** A map in which the default raster style is registered already. *)
Definition spectral_state : state :=
  {| mmap := append_style (mapnik_Map 256 256) "Spectral_r" {| rules := [] |};
     heap := []; calls := [] |}.

(** A valid form without style, bbox or limits. *)
Definition bare_form : TileForm := {| is_valid := true; cleaned_data := no_data |}.

(** A polygon of area zero. *)
Definition flat_bbox : Geometry :=
  {| geom_len := 1; area := 0; geom_extent := (0, 0, 0, 10)%Q;
     geom_srs := "+init=epsg:4326" |}.

(** ** The database source of a vector layer *)

(** The datasource that [make_dbsource] asks the backend for, with its
    keyword arguments. *)
Inductive DbDatasource :=
| SQLite (opts : gmap string string)
| PostGIS (opts : gmap string string).

(** [kwargs.setdefault(k, v)] *)
Definition setdefault (k v : string) (kwargs : gmap string string)
  : gmap string string :=
  match kwargs !! k with
  | Some _ => kwargs
  | None => <[k := v]> kwargs
  end.

(** The options of PostGIS and the settings that they come from. *)
Definition names : list (string * string) :=
  [("dbname", "NAME"); ("user", "USER"); ("password", "PASSWORD");
   ("host", "HOST"); ("port", "PORT")].

(** One turn of the loop over [names]. *)
Definition name_step (settings_dict : gmap string string)
  (kwargs : gmap string string) (md : string * string) : gmap string string :=
  match settings_dict !! md.2 with
  | Some val => if negb (String.eqb val "") then setdefault md.1 val kwargs else kwargs
  | None => kwargs
  end.

(** make_dbsource, on the settings of the connection, with strings for
    values. *)
Definition make_dbsource (settings_dict kwargs : gmap string string)
  : result DbDatasource :=
  match settings_dict !! "ENGINE" with
  | None => Raise TypeError
  | Some engine =>
      if bool_decide (is_Some (String.index 0 "spatialite" engine)) then
        match settings_dict !! "NAME" with
        | None => Raise KeyError
        | Some n =>
            let kwargs := setdefault "file" n kwargs in
            if bool_decide (is_Some (kwargs !! "wkb_format")) then Raise TypeError
            else Ok (SQLite (<["wkb_format" := "spatialite"]> kwargs))
        end
      else Ok (PostGIS (foldl (name_step settings_dict) kwargs names))
  end.

(** The options of a datasource. *)
Definition options (d : DbDatasource) : gmap string string :=
  match d with SQLite o | PostGIS o => o end.

(** ** Further observations *)

(** The name of the layer that [Map.layer] makes of a queryset. *)
Definition layer_name (q : queryset) : string :=
  match q with
  | QVector v => db_table v
  | QRaster r => rs_str r
  end.

Definition is_vector (q : queryset) : bool :=
  match q with QVector _ => true | QRaster _ => false end.

(** The binning requests among the calls. *)
Definition binning_calls (st : state) : list event :=
  omap (λ e, match e with EvLinear _ _ _ => Some e | _ => None end) (calls st).

(** The layer that [Map.layer] hands to the map for a queryset. *)
Definition map_layer (q : queryset) (sty : option string) : MLayer :=
  match q with
  | QVector v =>
      {| name := db_table v; lsrs := vq_proj4 v;
         datasource := DbSource (db_table v) (geo_field v) (geometry_type v);
         styles := [str_or sty (db_table v)] |}
  | QRaster r =>
      {| name := rs_str r; lsrs := rs_proj4 r;
         datasource := Gdal (image_path r) 1;
         styles := [str_or sty "Spectral_r"] |}
  end.

(** A bbox that [zoom_bbox] zooms to: it is not empty and has an area. *)
Definition usable (g : Geometry) : Prop :=
  (0 < geom_len g)%nat ∧ ¬ (area g == 0)%Q.


(** Sample settings and a vector queryset. *)
Definition postgis_settings : gmap string string :=
  {[ "ENGINE" := "django.contrib.gis.db.backends.postgis";
     "NAME" := "gis"; "USER" := "web"; "PASSWORD" := ""; "HOST" := "db" ]}.

Definition roads : VectorQuerySet :=
  {| db_table := "roads"; geo_field := "geom"; vq_proj4 := "+init=epsg:4326";
     geometry_type := LineString |}.

Definition unit_bbox : Geometry :=
  {| geom_len := 1; area := 1; geom_extent := (0, 0, 1, 1)%Q;
     geom_srs := "+init=epsg:4326" |}.

(** Settings of a spatialite connection. *)
Definition spatialite_settings : gmap string string :=
  {[ "ENGINE" := "django.contrib.gis.db.backends.spatialite";
     "NAME" := "/data/gis.db" ]}.

(** The state that [Map.__init__] gives without a map template, and the
    state after the layer of [roads] was added to it. *)
Definition blank_state : state :=
  {| mmap := {| width := 256; height := 256; buffer_size := 128;
                srs := "+init=epsg:3857"; map_styles := ∅;
                layers := []; extent := None |};
     heap := []; calls := [] |}.

Definition roads_state : state :=
  {| mmap := {| width := 256; height := 256; buffer_size := 128;
                srs := "+init=epsg:3857";
                map_styles := {[ "roads" := {| rules := [ {| symbols := [0%nat] |} ] |} ]};
                layers := [map_layer (QVector roads) None]; extent := None |};
     heap := [LineSymbolizer]; calls := [EvAppendStyle "roads"] |}.

(** A form that asks for a bbox. *)
Definition bbox_form : TileForm :=
  {| is_valid := true;
     cleaned_data := {| style := None; bbox := Some (BBoxGeom unit_bbox);
                        limits := None |} |}.

End Carto.

(** * Feature documents ([spillway/collections.py]) *)

Module Collections.

(** ** Python values *)

(** The classes of the dictionaries at hand: [dict] and its subclasses
    defined in the module. *)
Inductive dict_class :=
| Dict
| FeatureClass
| FeatureCollectionClass
| NamedCRSClass
| LinkedCRSClass.

(** The values that the module handles: the JSON-like values of Python,
    with dictionaries keyed by strings and tagged by their class.  Strings
    are sequences of characters with codes below 256. *)
Local Unset Elimination Schemes.
Inductive pyval :=
| PNone
| PBool (b : bool)
| PInt (z : Z)
| PStr (s : string)
| PList (l : list pyval)
| PTuple (l : list pyval)
| PDict (c : dict_class) (d : gmap string pyval).
Local Set Elimination Schemes.

(** The truth value of a Python value. *)
Definition truthy (v : pyval) : bool :=
  match v with
  | PNone => false
  | PBool b => b
  | PInt z => negb (z =? 0)%Z
  | PStr s => negb (String.eqb s "")
  | PList l | PTuple l => negb (Nat.eqb (length l) 0)
  | PDict _ d => negb (Nat.eqb (size d) 0)
  end.

(** [a or b] *)
Definition py_or (a b : pyval) : pyval := if truthy a then a else b.

Definition is_Feature (v : pyval) : bool :=
  match v with PDict FeatureClass _ => true | _ => false end.

Definition is_FeatureCollection (v : pyval) : bool :=
  match v with PDict FeatureCollectionClass _ => true | _ => false end.

Definition is_dict (v : pyval) : bool :=
  match v with PDict _ _ => true | _ => false end.

(** [isinstance(v, collections.Sequence)] *)
Definition is_Sequence (v : pyval) : bool :=
  match v with PStr _ | PList _ | PTuple _ => true | _ => false end.

(** [sys.maxint], on a build whose C long has 64 bits. *)
Definition maxint : Z := 2 ^ 63 - 1.

(** [isinstance(v, int)]: a plain integer.  An integer beyond the range
    of [sys.maxint] is a long one, which is no [int]; bool is a subclass
    of int. *)
Definition is_int (v : pyval) : bool :=
  match v with
  | PInt z => (- maxint - 1 <=? z)%Z && (z <=? maxint)%Z
  | PBool _ => true
  | _ => false
  end.

Definition is_str (v : pyval) (s : string) : bool :=
  match v with PStr t => String.eqb s t | _ => false end.

(** The characters of a string, each as a string of its own. *)
Definition chars (s : string) : list pyval :=
  (λ c, PStr (String c "")) <$> list_ascii_of_string s.

(** [key in v] for a string [key]: a key of a mapping, an element of a
    list or tuple, a substring of a string; TypeError for a value that
    is no container. *)
Definition contains (key : string) (v : pyval) : result bool :=
  match v with
  | PDict _ d => Ok (bool_decide (is_Some (d !! key)))
  | PList l | PTuple l => Ok (existsb (λ x, is_str x key) l)
  | PStr s => Ok (bool_decide (is_Some (String.index 0 key s)))
  | PNone | PBool _ | PInt _ => Raise TypeError
  end.

(** Iterating over a value: the elements of a list or tuple, the
    characters of a string, the keys of a mapping. *)
Definition iter (v : pyval) : result (list pyval) :=
  match v with
  | PList l | PTuple l => Ok l
  | PStr s => Ok (chars s)
  | PDict _ d => Ok (PStr <$> (map_to_list d).*1)
  | PNone | PBool _ | PInt _ => Raise TypeError
  end.

(** [v[0]] *)
Definition getitem0 (v : pyval) : result pyval :=
  match v with
  | PList (x :: _) | PTuple (x :: _) => Ok x
  | PStr (String c _) => Ok (PStr (String c ""))
  | PList [] | PTuple [] | PStr "" => Raise IndexError
  | PDict _ _ => Raise KeyError
  | PNone | PBool _ | PInt _ => Raise TypeError
  end.

(** Decimal digits of an integer, as [str] and [json.dumps] print it. *)
Definition digit_char (n : nat) : ascii := ascii_of_nat (48 + n).

Fixpoint uint_chars (d : Decimal.uint) : string :=
  match d with
  | Decimal.Nil => ""
  | Decimal.D0 d => String (digit_char 0) (uint_chars d)
  | Decimal.D1 d => String (digit_char 1) (uint_chars d)
  | Decimal.D2 d => String (digit_char 2) (uint_chars d)
  | Decimal.D3 d => String (digit_char 3) (uint_chars d)
  | Decimal.D4 d => String (digit_char 4) (uint_chars d)
  | Decimal.D5 d => String (digit_char 5) (uint_chars d)
  | Decimal.D6 d => String (digit_char 6) (uint_chars d)
  | Decimal.D7 d => String (digit_char 7) (uint_chars d)
  | Decimal.D8 d => String (digit_char 8) (uint_chars d)
  | Decimal.D9 d => String (digit_char 9) (uint_chars d)
  end.

Definition str_int (z : Z) : string :=
  match Z.to_int z with
  | Decimal.Pos d => uint_chars d
  | Decimal.Neg d => String "-" (uint_chars d)
  end.

(** ['%s' % v], that is [str(v)]; the text of a container is its [repr],
    which is not modelled. *)
Definition format_s (v : pyval) : result string :=
  match v with
  | PNone => Ok "None"
  | PBool true => Ok "True"
  | PBool false => Ok "False"
  | PInt z => Ok (str_int z)
  | PStr s => Ok s
  | PList _ | PTuple _ | PDict _ _ => Raise Unmodelled
  end.

(** One element of the sequence given to [dict.update]: a key and a
    value.  Keys other than strings are outside the model. *)
Definition key_value (x : pyval) : result (string * pyval) :=
  items ← iter x;
  match items with
  | [k; v] =>
      match k with
      | PStr s => Ok (s, v)
      | PList _ | PDict _ _ => Raise TypeError
      | _ => Raise Unmodelled
      end
  | _ => Raise ValueError
  end.

(** [self.update(iterable, **kwargs)] *)
Definition dict_update (self : gmap string pyval) (iterable : pyval)
  (kwargs : gmap string pyval) : result (gmap string pyval) :=
  self ← match iterable with
         | PDict _ d => Ok (d ∪ self)
         | _ =>
             items ← iter iterable;
             kvs ← mapM key_value items;
             Ok (foldl (λ acc kv, <[kv.1 := kv.2]> acc) self kvs)
         end;
  Ok (kwargs ∪ self).

(** [f( **data)]: the keyword arguments of a call are the items of a
    mapping. *)
Definition call_kwargs (f : gmap string pyval → result pyval) (data : pyval)
  : result pyval :=
  match data with
  | PDict _ d => f d
  | _ => Raise TypeError
  end.

(** A keyword argument, or its default. *)
Definition arg (args : gmap string pyval) (key : string) (dflt : pyval) : pyval :=
  default dflt (args !! key).

(** The keyword arguments that no named parameter takes. *)
Definition rest_args (named : list string) (args : gmap string pyval)
  : gmap string pyval :=
  foldr delete args named.

(** ** The classes *)

(** NamedCRS.__init__ *)
Definition NamedCRS_init (srid iterable : pyval) (kwargs : gmap string pyval)
  : result pyval :=
  let self : gmap string pyval := <["type" := PStr "name"]> ∅ in
  '(self, iterable) ←
    (if is_int srid then
       s ← format_s srid;
       Ok (<["properties" :=
               PDict Dict {["name" := PStr ("urn:ogc:def:crs:EPSG::" +:+ s)]}]> self,
           iterable)
     else Ok (self, py_or iterable srid));
  self ← dict_update self iterable kwargs;
  Ok (PDict NamedCRSClass self).

(** [if crs: self['crs'] = NamedCRS(crs)] *)
Definition set_crs (self : gmap string pyval) (crs : pyval)
  : result (gmap string pyval) :=
  if truthy crs then
    c ← NamedCRS_init crs (PTuple []) ∅;
    Ok (<["crs" := c]> self)
  else Ok self.

(** Feature.__init__, called with the keyword arguments [args]. *)
Definition Feature_init (args : gmap string pyval) : result pyval :=
  if bool_decide (is_Some (args !! "self")) then Raise TypeError else
  let id := arg args "id" PNone in
  let geometry := arg args "geometry" PNone in
  let properties := arg args "properties" PNone in
  let crs := arg args "crs" PNone in
  let iterable := arg args "iterable" (PTuple []) in
  let kwargs := rest_args ["id"; "geometry"; "properties"; "crs"; "iterable"] args in
  let self : gmap string pyval := ∅ in
  let self := <["type" := PStr "Feature"]> self in
  let self := <["id" := id]> self in
  let self := <["geometry" := py_or geometry (PDict Dict ∅)]> self in
  let self := <["properties" := py_or properties (PDict Dict ∅)]> self in
  self ← set_crs self crs;
  self ← dict_update self iterable kwargs;
  Ok (PDict FeatureClass self).

(** What FeatureCollection.__init__ stores under [features]: the Features
    made of the elements when there are elements and the first is not a
    Feature, and [features or []] otherwise. *)
Definition features_value (features : pyval) : result pyval :=
  raw ← (if truthy features then
           first ← getitem0 features;
           Ok (negb (is_Feature first))
         else Ok false);
  if raw : bool then
    items ← iter features;
    fs ← mapM (call_kwargs Feature_init) items;
    Ok (PList fs)
  else Ok (py_or features (PList [])).

(** FeatureCollection.__init__, called with the keyword arguments [args]. *)
Definition FeatureCollection_init (args : gmap string pyval) : result pyval :=
  if bool_decide (is_Some (args !! "self")) then Raise TypeError else
  let features := arg args "features" PNone in
  let crs := arg args "crs" PNone in
  let iterable := arg args "iterable" (PTuple []) in
  let kwargs := rest_args ["features"; "crs"; "iterable"] args in
  let self : gmap string pyval := ∅ in
  let self := <["type" := PStr "FeatureCollection"]> self in
  self ← set_crs self crs;
  fs ← features_value features;
  let self := <["features" := fs]> self in
  self ← dict_update self iterable kwargs;
  Ok (PDict FeatureCollectionClass self).

(** ** Coercion *)

(** [try: ... except (AttributeError, TypeError): return False] *)
Definition except_false (r : result bool) : result bool :=
  match r with
  | Raise AttributeError | Raise TypeError => Ok false
  | r => r
  end.

Definition has_features (fcollection : pyval) : result bool :=
  except_false (contains "features" fcollection).

Definition is_featurelike (feature : pyval) : result bool :=
  except_false (g ← contains "geometry" feature;
                if g : bool then contains "properties" feature else Ok false).

Definition as_feature (data : pyval) : result pyval :=
  if negb (is_Feature data || is_FeatureCollection data) then
    fl ← is_featurelike data;
    if fl : bool then call_kwargs Feature_init data else
    hf ← has_features data;
    if hf : bool then call_kwargs FeatureCollection_init data else
    if is_Sequence data then FeatureCollection_init {["features" := data]} else
    if is_dict data && negb (truthy data) then Feature_init ∅ else
    Ok data
  else Ok data.

(** ** JSON text: [json.dumps] and [json.loads] *)

Definition dquote : ascii := "034".
Definition backslash : ascii := "092".

Definition quoted (s : string) : string := String dquote (s +:+ String dquote "").

Definition hex_char (n : nat) : ascii :=
  match n with
  | 0 => "0" | 1 => "1" | 2 => "2" | 3 => "3" | 4 => "4" | 5 => "5"
  | 6 => "6" | 7 => "7" | 8 => "8" | 9 => "9" | 10 => "a" | 11 => "b"
  | 12 => "c" | 13 => "d" | 14 => "e" | _ => "f"
  end%char.

(** The text of one character inside a JSON string, as the encoder writes
    it with [ensure_ascii]: the short escapes, [\u00xx] for the other
    characters outside the printable ASCII range, and the character itself
    otherwise. *)
Definition escape_char (c : ascii) : string :=
  if (c =? dquote)%char then String backslash (String dquote "")
  else if (c =? backslash)%char then String backslash (String backslash "")
  else if (c =? "008")%char then String backslash "b"
  else if (c =? "012")%char then String backslash "f"
  else if (c =? "010")%char then String backslash "n"
  else if (c =? "013")%char then String backslash "r"
  else if (c =? "009")%char then String backslash "t"
  else
    let n := nat_of_ascii c in
    if (n <? 32)%nat || (126 <? n)%nat then
      String backslash
        (String "u" (String "0" (String "0"
           (String (hex_char (n / 16)) (String (hex_char (n mod 16)) "")))))
    else String c "".

Fixpoint escape (s : string) : string :=
  match s with
  | EmptyString => ""
  | String c r => escape_char c +:+ escape r
  end.

Definition encode_str (s : string) : string := quoted (escape s).

Fixpoint join (sep : string) (l : list string) : string :=
  match l with
  | [] => ""
  | [x] => x
  | x :: rest => x +:+ sep +:+ join sep rest
  end.

(** [json.dumps(v, cls=JSONEncoder)] with the default separators.  On the
    values at hand the encoder class is never asked for a default. *)
Fixpoint dumps (v : pyval) : string :=
  match v with
  | PNone => "null"
  | PBool true => "true"
  | PBool false => "false"
  | PInt z => str_int z
  | PStr s => encode_str s
  | PList l | PTuple l => "[" +:+ join ", " (dumps <$> l) +:+ "]"
  | PDict _ d =>
      "{" +:+ join ", " (map_fold (λ k x acc,
                                     (encode_str k +:+ ": " +:+ dumps x) :: acc)
                                  [] d)
          +:+ "}"
  end.

(** The document that a value is written as: tuples are arrays, and a
    dictionary of any class is an object.  It is what the decoder returns
    for the text of the value. *)
Fixpoint to_plain (v : pyval) : pyval :=
  match v with
  | PList l | PTuple l => PList (to_plain <$> l)
  | PDict _ d => PDict Dict (to_plain <$> d)
  | _ => v
  end.

(** The number of nodes of a value. *)
Fixpoint size_v (v : pyval) : nat :=
  match v with
  | PList l | PTuple l => S (foldr (λ x acc, size_v x + acc)%nat 0%nat l)
  | PDict _ d => S (map_fold (λ _ x acc, size_v x + acc)%nat 0%nat d)
  | _ => 1
  end.

Definition is_ws (c : ascii) : bool :=
  ((c =? " ") || (c =? "009") || (c =? "010") || (c =? "013"))%char.

Fixpoint skip_ws (s : string) : string :=
  match s with
  | EmptyString => ""
  | String c r => if is_ws c then skip_ws r else s
  end.

Definition hex_val (c : ascii) : option nat :=
  let n := nat_of_ascii c in
  if (48 <=? n)%nat && (n <=? 57)%nat then Some (n - 48)%nat
  else if (97 <=? n)%nat && (n <=? 102)%nat then Some (n - 87)%nat
  else if (65 <=? n)%nat && (n <=? 70)%nat then Some (n - 55)%nat
  else None.

Definition hex4 (a b c d : ascii) : option nat :=
  x ← hex_val a; y ← hex_val b; z ← hex_val c; w ← hex_val d;
  Some (((x * 16 + y) * 16 + z) * 16 + w)%nat.

(** The character that a short escape stands for. *)
Definition unescape (e : ascii) : option ascii :=
  if (e =? dquote)%char then Some dquote
  else if (e =? backslash)%char then Some backslash
  else if (e =? "/")%char then Some "/"%char
  else if (e =? "b")%char then Some "008"%char
  else if (e =? "f")%char then Some "012"%char
  else if (e =? "n")%char then Some "010"%char
  else if (e =? "r")%char then Some "013"%char
  else if (e =? "t")%char then Some "009"%char
  else None.

(** The decoder on the inside of a string, after its opening quote: the
    string and what follows its closing quote.  Control characters must be
    escaped; escapes of characters beyond code 255 are outside the model. *)
Fixpoint scan_string (s : string) : option (string * string) :=
  match s with
  | EmptyString => None
  | String c r =>
      if (c =? dquote)%char then Some ("", r)
      else if (c =? backslash)%char then
        match r with
        | EmptyString => None
        | String e r1 =>
            if (e =? "u")%char then
              match r1 with
              | String h1 (String h2 (String h3 (String h4 r2))) =>
                  n ← hex4 h1 h2 h3 h4;
                  if (n <? 256)%nat then
                    '(x, r3) ← scan_string r2;
                    Some (String (ascii_of_nat n) x, r3)
                  else None
              | _ => None
              end
            else
              c' ← unescape e;
              '(x, r2) ← scan_string r1;
              Some (String c' x, r2)
        end
      else if (nat_of_ascii c <? 32)%nat then None
      else '(x, r1) ← scan_string r; Some (String c x, r1)
  end.

Definition digit_of (c : ascii) : option (Decimal.uint → Decimal.uint) :=
  if (c =? "0")%char then Some Decimal.D0
  else if (c =? "1")%char then Some Decimal.D1
  else if (c =? "2")%char then Some Decimal.D2
  else if (c =? "3")%char then Some Decimal.D3
  else if (c =? "4")%char then Some Decimal.D4
  else if (c =? "5")%char then Some Decimal.D5
  else if (c =? "6")%char then Some Decimal.D6
  else if (c =? "7")%char then Some Decimal.D7
  else if (c =? "8")%char then Some Decimal.D8
  else if (c =? "9")%char then Some Decimal.D9
  else None.

(** The longest run of digits at the head of a string. *)
Fixpoint scan_uint (s : string) : Decimal.uint * string :=
  match s with
  | EmptyString => (Decimal.Nil, "")
  | String c r =>
      match digit_of c with
      | Some f => let '(d, r') := scan_uint r in (f d, r')
      | None => (Decimal.Nil, s)
      end
  end.

(** The digits of an integer literal: a single 0, or a run of digits that
    does not start with 0. *)
Definition scan_nat (s : string) : option (Decimal.uint * string) :=
  match s with
  | EmptyString => None
  | String c r =>
      if (c =? "0")%char then Some (Decimal.D0 Decimal.Nil, r)
      else match digit_of c with
           | Some _ => Some (scan_uint s)
           | None => None
           end
  end.

(** An integer literal.  A literal with a fraction or an exponent denotes
    a float, which the model has not: no text with one is accepted. *)
Definition scan_int (s : string) : option (Z * string) :=
  match s with
  | String c r =>
      if (c =? "-")%char then
        '(d, r') ← scan_nat r; Some (Z.of_int (Decimal.Neg d), r')
      else
        '(d, r') ← scan_nat s; Some (Z.of_int (Decimal.Pos d), r')
  | EmptyString => None
  end.

(** [s] without the prefix [p], when it starts with it. *)
Fixpoint strip_prefix (p s : string) : option string :=
  match p, s with
  | EmptyString, _ => Some s
  | String a p', String b s' => if (a =? b)%char then strip_prefix p' s' else None
  | _, _ => None
  end.

(** The elements of an array, from the first element on. *)
Fixpoint parse_elements (pv : string → option (pyval * string)) (n : nat)
  (s : string) : option (list pyval * string) :=
  match n with
  | O => None
  | S n =>
      '(v, r) ← pv s;
      match skip_ws r with
      | EmptyString => None
      | String c r' =>
          if (c =? "]")%char then Some ([v], r')
          else if (c =? ",")%char then
            '(vs, r'') ← parse_elements pv n (skip_ws r');
            Some (v :: vs, r'')
          else None
      end
  end.

(** The members of an object, from the opening quote of the first key on. *)
Fixpoint parse_members (pv : string → option (pyval * string)) (n : nat)
  (s : string) : option (list (string * pyval) * string) :=
  match n with
  | O => None
  | S n =>
      match s with
      | EmptyString => None
      | String q r0 =>
          if (q =? dquote)%char then
            '(k, r1) ← scan_string r0;
            match skip_ws r1 with
            | EmptyString => None
            | String c r2 =>
                if (c =? ":")%char then
                  '(v, r3) ← pv (skip_ws r2);
                  match skip_ws r3 with
                  | EmptyString => None
                  | String c' r4 =>
                      if (c' =? "}")%char then Some ([(k, v)], r4)
                      else if (c' =? ",")%char then
                        '(kvs, r5) ← parse_members pv n (skip_ws r4);
                        Some ((k, v) :: kvs, r5)
                      else None
                  end
                else None
            end
          else None
      end
  end.

(** [dict(pairs)]: a later pair replaces an earlier one with its key. *)
Definition dict_of (pairs : list (string * pyval)) : gmap string pyval :=
  foldl (λ acc kv, <[kv.1 := kv.2]> acc) ∅ pairs.

(** The decoder on one value, with [n] for the depth and the width that
    it may go to. *)
Fixpoint parse_value (n : nat) (s : string) : option (pyval * string) :=
  match n with
  | O => None
  | S n =>
      match s with
      | EmptyString => None
      | String c r =>
          if (c =? dquote)%char then
            '(x, r') ← scan_string r; Some (PStr x, r')
          else if (c =? "{")%char then
            match skip_ws r with
            | EmptyString => None
            | String c' r' =>
                if (c' =? "}")%char then Some (PDict Dict ∅, r')
                else
                  '(kvs, r'') ← parse_members (parse_value n) n (skip_ws r);
                  Some (PDict Dict (dict_of kvs), r'')
            end
          else if (c =? "[")%char then
            match skip_ws r with
            | EmptyString => None
            | String c' r' =>
                if (c' =? "]")%char then Some (PList [], r')
                else
                  '(vs, r'') ← parse_elements (parse_value n) n (skip_ws r);
                  Some (PList vs, r'')
            end
          else
            match strip_prefix "null" s with
            | Some r' => Some (PNone, r')
            | None =>
            match strip_prefix "true" s with
            | Some r' => Some (PBool true, r')
            | None =>
            match strip_prefix "false" s with
            | Some r' => Some (PBool false, r')
            | None => '(z, r') ← scan_int s; Some (PInt z, r')
            end end end
      end
  end.

(** [json.loads]: one value, with white space around it and nothing else;
    None stands for the ValueError of the decoder, and for the texts that
    are outside the model. *)
Definition loads (s : string) : option pyval :=
  '(v, r) ← parse_value (S (String.length s)) (skip_ws s);
  match skip_ws r with
  | EmptyString => Some v
  | _ => None
  end.

(** [s[1:-1]] *)
Fixpoint drop_last (s : string) : string :=
  match s with
  | EmptyString => ""
  | String c EmptyString => ""
  | String c r => String c (drop_last r)
  end.

Definition slice_1_m1 (s : string) : string :=
  match s with
  | EmptyString => ""
  | String _ r => drop_last r
  end.

(** ** Serialization *)

(** Feature.__str__ *)
Definition Feature_str (self : gmap string pyval) : result string :=
  g ← match self !! "geometry" with
      | Some g => Ok g
      | None => Raise KeyError
      end;
  let geom := py_or g (PStr "{}") in
  if is_dict geom then Ok (dumps (PDict FeatureClass self))
  else
    let keys : gset string := dom self ∖ {["geometry"]} in
    let others : gmap string pyval := filter (λ kv, kv.1 ∈ keys) self in
    let props := slice_1_m1 (dumps (PDict Dict others)) in
    geom ← format_s geom;
    Ok ("{" +:+ quoted "geometry" +:+ ": " +:+ geom +:+ ", " +:+ props +:+ "}").

(** LinkedCRS.__init__ *)
Definition LinkedCRS_init (srid iterable : pyval) (kwargs : gmap string pyval)
  : result pyval :=
  let self : gmap string pyval := <["type" := PStr "link"]> ∅ in
  '(self, iterable) ←
    (if is_int srid then
       s ← format_s srid;
       let properties : gmap string pyval := ∅ in
       let properties :=
         <["href" := PStr ("http://spatialreference.org/ref/epsg/" +:+ s
                           +:+ "/proj4/")]> properties in
       let properties := <["type" := PStr "proj4"]> properties in
       Ok (<["properties" := PDict Dict properties]> self, iterable)
     else Ok (self, py_or iterable srid));
  self ← dict_update self iterable kwargs;
  Ok (PDict LinkedCRSClass self).

(** [str(v)] on an element of [features]: a Feature has its own
    [__str__]; the text of the other containers is not modelled. *)
Definition py_str (v : pyval) : result string :=
  match v with
  | PDict FeatureClass d => Feature_str d
  | _ => format_s v
  end.

(** FeatureCollection.__str__ *)
Definition FeatureCollection_str (self : gmap string pyval) : result string :=
  fs ← match self !! "features" with
       | Some fs => Ok fs
       | None => Raise KeyError
       end;
  items ← iter fs;
  texts ← mapM py_str items;
  let features := join "," texts in
  let keys : gset string := dom self ∖ {["features"]} in
  let others : gmap string pyval := filter (λ kv, kv.1 ∈ keys) self in
  let collection :=
    drop_last (dumps (PDict Dict others)) +:+ ", " +:+ quoted "features"
      +:+ ": [" in
  Ok (collection +:+ features +:+ "]}").

(** ** Notions of the properties *)

(** Keyword arguments that are data: none of them binds [self], and none
    of them is one of the parameters [crs] and [iterable]. *)
Definition plain_kwargs (d : gmap string pyval) : Prop :=
  d !! "self" = None ∧ d !! "crs" = None ∧ d !! "iterable" = None.


(** A raw feature-like mapping: a mapping with the keys [geometry] and
    [properties] that is neither a Feature nor a FeatureCollection. *)
Definition raw_featurelike (x : pyval) : bool :=
  match x with
  | PDict c d =>
      negb (is_Feature x || is_FeatureCollection x)
      && bool_decide (is_Some (d !! "geometry"))
      && bool_decide (is_Some (d !! "properties"))
  | _ => false
  end.

(** The FeatureCollection of the features [fs], without further keys. *)
Definition collection_of (fs : pyval) : pyval :=
  PDict FeatureCollectionClass
    (<["features" := fs]> {["type" := PStr "FeatureCollection"]}).



(** A text that does not go on with a digit. *)
Definition no_digit_head (t : string) : Prop :=
  match t with
  | EmptyString => True
  | String c _ => digit_of c = None
  end.

(** A text that starts with a character that is neither white space nor
    a closing bracket. *)
Definition solid (s : string) : Prop :=
  match s with
  | EmptyString => False
  | String c _ =>
      is_ws c = false ∧ (c =? "]")%char = false ∧ (c =? "}")%char = false
  end.

(** The text of a member of an object. *)
Definition member_text (kv : string * pyval) : string :=
  encode_str kv.1 +:+ ": " +:+ dumps kv.2.

(** The text of a Feature with its geometry spliced in, [rest] being the
    text of the other members. *)
Definition spliced (g rest : string) : string :=
  "{" +:+ quoted "geometry" +:+ ": " +:+ g +:+ ", " +:+ rest +:+ "}".

(** The coordinate reference system that NamedCRS makes of an integer. *)
Definition named_crs (n : Z) : pyval :=
  PDict NamedCRSClass
    (<["properties" :=
         PDict Dict {["name" := PStr ("urn:ogc:def:crs:EPSG::" +:+ str_int n)]}]>
       (<["type" := PStr "name"]> ∅)).

(** A text that the value decoder [pv] reads as the document [v],
    whatever follows it, up to white space. *)
Definition reads (pv : string → option (pyval * string)) (T : string) (v : pyval)
  : Prop :=
  solid T ∧
  ∃ r, skip_ws r = "" ∧
       ∀ t, no_digit_head t → pv (T +:+ t) = Some (v, r +:+ t).

(** A Feature that has a [type] and a mapping for geometry. *)
Definition structured (f : pyval) : Prop :=
  ∃ d g, f = PDict FeatureClass d ∧ d !! "geometry" = Some g ∧
         is_dict g = true ∧ is_Some (d !! "type").

(** A raw feature-like mapping whose keyword arguments are data and
    whose geometry, if it has one, is a mapping. *)
Definition raw_structured (x : pyval) : Prop :=
  raw_featurelike x = true ∧
  ∃ c d, x = PDict c d ∧ plain_kwargs d ∧
         (truthy (arg d "geometry" PNone) = true →
          is_dict (arg d "geometry" PNone) = true).

(** ** Sample inputs *)

Definition point (x y : Z) : pyval :=
  PDict Dict {[ "type" := PStr "Point"; "coordinates" := PList [PInt x; PInt y] ]}.

Definition raw_feature (x y : Z) (label : string) : pyval :=
  PDict Dict {[ "geometry" := point x y;
                "properties" := PDict Dict {[ "name" := PStr label ]} ]}.

Definition raw_features : list pyval :=
  [raw_feature 1 2 "a"; raw_feature 3 4 "b"].

(** The text of a point, as a datastore hands it over, and a Feature made
    of it. *)
Definition point_text : string :=
  "{ " +:+ quoted "type" +:+ ":" +:+ quoted "Point" +:+ ", "
       +:+ quoted "coordinates" +:+ ": [1,2] }".

Definition stored_args : gmap string pyval :=
  {[ "id" := PInt 7; "geometry" := PStr point_text;
     "properties" := PDict Dict {[ "name" := PStr "a" ]} ]}.

Definition stored_feature : gmap string pyval :=
  {[ "type" := PStr "Feature"; "id" := PInt 7; "geometry" := PStr point_text;
     "properties" := PDict Dict {[ "name" := PStr "a" ]} ]}.

(** A Feature with a structured geometry, and a collection of two. *)
Definition point_feature (x y : Z) (label : string) : gmap string pyval :=
  {[ "type" := PStr "Feature"; "id" := PNone; "geometry" := point x y;
     "properties" := PDict Dict {[ "name" := PStr label ]} ]}.

Definition two_points : gmap string pyval :=
  {[ "type" := PStr "FeatureCollection";
     "features" := PList [PDict FeatureClass (point_feature 1 2 "a");
                          PDict FeatureClass (point_feature 3 4 "b")] ]}.

End Collections.

(** * Form fields ([spillway/forms/fields.py]) *)

Module Fields.

(** [s.split(sep)] for a separator of one character. *)
Fixpoint split (sep : ascii) (s : string) : list string :=
  match s with
  | EmptyString => [""]
  | String c r =>
      if (c =? sep)%char then "" :: split sep r
      else match split sep r with
           | p :: ps => String c p :: ps
           | [] => [String c ""]
           end
  end.

(** The number of occurrences of a character. *)
Fixpoint count_char (sep : ascii) (s : string) : nat :=
  match s with
  | EmptyString => 0
  | String c r => (if (c =? sep)%char then 1 else 0) + count_char sep r
  end.

Section Fields.

(** The values of FloatField. *)
Variable number : Type.

(** [forms.FloatField.to_python] *)
Variable FloatField_to_python : string → result number.

(** [gdal.OGRGeometry.from_bbox(value).geos], and the assignment of the
    srid. *)
Variable from_bbox : list number → result Carto.Geometry.
Variable with_srid : Carto.Geometry → Z → Carto.Geometry.

(** CommaSepFloatField.to_python *)
Definition CommaSepFloatField_to_python (value : option string)
  : result (list number) :=
  match value with
  | None | Some EmptyString => Ok []
  | Some v => mapM FloatField_to_python (split "," v)
  end.

(** BoundingBoxField.to_python *)
Definition BoundingBoxField_to_python (srid : Z) (value : option string)
  : result Carto.bbox_value :=
  value ← CommaSepFloatField_to_python value;
  match from_bbox value with
  | Ok bbox => Ok (Carto.BBoxGeom (with_srid bbox srid))
  | Raise ValueError | Raise AttributeError => Ok Carto.BBoxEmptyList
  | Raise e => Raise e
  end.

End Fields.

(** A sample reader of numbers: the integers. *)
Definition read_int (s : string) : result Z :=
  match Collections.scan_int s with
  | Some (z, EmptyString) => Ok z
  | _ => Raise ValueError
  end.



End Fields.

(** * Properties of the map assembly *)

Section CartoSpec.

Import Carto.

Lemma stop_loop_built p pairs : ∀ st c,
  heap st !! p = Some (RasterSymbolizer c) →
  stop_loop (Some p) pairs st =
    Ok {| mmap := mmap st;
          heap := <[p := RasterSymbolizer
                      {| default_mode := default_mode c;
                         default_color := default_color c;
                         stops := stops c
                           ++ ((λ vc : Q * string, (vc.1, ColorName vc.2)) <$> pairs) |}]>
                    (heap st);
          calls := calls st |}.
Proof.
  induction pairs as [|vc pairs IH]; intros st c Hp; simpl.
  - rewrite app_nil_r. destruct c, st; simpl in *.
    by rewrite list_insert_id.
  - unfold stop_step. rewrite Hp. simpl.
    rewrite (IH _ (add_stop c vc.1 (ColorName vc.2))); simpl.
    + rewrite list_insert_insert_eq. by rewrite <- app_assoc.
    + apply list_lookup_insert_eq. by eapply lookup_lt_Some.
Qed.

Lemma stop_loop_unbuilt vc pairs st :
  stop_loop None (vc :: pairs) st = Raise AttributeError.
Proof. reflexivity. Qed.

Lemma new_stops_length bins rcolors :
  length bins = length rcolors → length (new_stops bins rcolors) = length rcolors.
Proof.
  intros H. unfold new_stops. rewrite length_fmap, length_zip_with. lia.
Qed.

Lemma new_stops_lookup bins rcolors i v col :
  bins !! i = Some v → rcolors !! i = Some col →
  new_stops bins rcolors !! i = Some (v, ColorName col).
Proof.
  unfold new_stops. revert rcolors i.
  induction bins as [|b bins IH]; intros [|c rcolors] [|i] Hv Hc;
    simplify_eq/=; eauto.
Qed.

Lemma new_stops_values bins rcolors :
  length bins = length rcolors → (new_stops bins rcolors).*1 = bins.
Proof.
  unfold new_stops. revert rcolors.
  induction bins as [|b bins IH]; intros [|c rcolors] H; simpl in *; try done.
  f_equal. apply IH. lia.
Qed.

(** What [add_colorizer_stops] does on a layer whose symbolizer is built. *)
Lemma add_colorizer_stops_built colormap l rstore lims st p c rcolors bins :
  cls l = RasterLayer rstore →
  _symbolizer l = Some p →
  heap st !! p = Some (RasterSymbolizer c) →
  colormap !! stylename l = Some rcolors →
  linear rstore lims (length rcolors) = Ok bins →
  ∃ st', add_colorizer_stops colormap l lims st = Ok st' ∧
         mmap st' = mmap st ∧
         heap st' = <[p := RasterSymbolizer
                        {| default_mode := default_mode c;
                           default_color := default_color c;
                           stops := stops c ++ new_stops bins rcolors |}]> (heap st).
Proof.
  intros Hcls Hsym Hp Hramp Hbins. unfold add_colorizer_stops.
  rewrite Hcls, Hramp. destruct rcolors as [|col cs].
  - eexists; split; [done|]. split; [done|].
    unfold new_stops. rewrite zip_with_nil_r. simpl. rewrite app_nil_r.
    destruct c; simpl. by rewrite list_insert_id.
  - rewrite Hbins, Hsym. simpl.
    rewrite (stop_loop_built p _ _ c) by done. eexists; split; [done|]. done.
Qed.

(** C1, as amended: on a raster layer whose symbolizer is built and whose
    style name has a colour ramp, when the raster's binning answers the
    request for [k = len(rcolors)] values with that many values in
    ascending order, [add_colorizer_stops] appends exactly [len(rcolors)]
    stops to the layer's colorizer, the i-th pairing the i-th value with
    the i-th ramp colour, in ascending order of value.  The number of stops
    is the size of the ramp whatever the number of boundary limits. *)
Theorem add_colorizer_stops_pairs colormap l rstore lims st p c rcolors bins :
  cls l = RasterLayer rstore →
  _symbolizer l = Some p →
  heap st !! p = Some (RasterSymbolizer c) →
  colormap !! stylename l = Some rcolors →
  linear rstore lims (length rcolors) = Ok bins →
  length bins = length rcolors →
  Sorted Qle bins →
  ∃ st' c' (added : list (Q * Color)),
    add_colorizer_stops colormap l lims st = Ok st' ∧
    heap st' !! p = Some (RasterSymbolizer c') ∧
    stops c' = stops c ++ added ∧
    length added = length rcolors ∧
    (∀ i v col, bins !! i = Some v → rcolors !! i = Some col →
                added !! i = Some (v, ColorName col)) ∧
    Sorted Qle added.*1.
Proof.
  intros Hcls Hsym Hp Hramp Hbins Hlen Hsorted.
  destruct (add_colorizer_stops_built colormap l rstore lims st p c rcolors bins)
    as (st' & Hrun & _ & Hheap); try done.
  eexists st', _, (new_stops bins rcolors). split; [done|].
  split; [|split; [|split; [|split]]].
  - rewrite Hheap. apply list_lookup_insert_eq. by eapply lookup_lt_Some.
  - done.
  - by apply new_stops_length.
  - intros i v col. apply new_stops_lookup.
  - by rewrite new_stops_values.
Qed.

Lemma add_colorizer_stops_pairs_witness :
  ∃ st' c' (added : list (Q * Color)),
    add_colorizer_stops ramps dem_layer (Some [0; 50; 100]%Q) dem_state = Ok st' ∧
    heap st' !! 0%nat = Some (RasterSymbolizer c') ∧
    stops c' = [] ++ added ∧
    length added = 3%nat ∧
    (∀ i v col, [0; 50; 100]%Q !! i = Some v →
                ["#5e4fa2"; "#ffffbf"; "#9e0142"] !! i = Some col →
                added !! i = Some (v, ColorName col)) ∧
    Sorted Qle added.*1.
Proof.
  apply (add_colorizer_stops_pairs ramps dem_layer dem (Some [0; 50; 100]%Q) dem_state
           0%nat {| default_mode := COLORIZER_LINEAR;
                    default_color := ColorRGBA 0 0 0 0; stops := [] |}
           ["#5e4fa2"; "#ffffbf"; "#9e0142"] [0; 50; 100]%Q);
    try reflexivity.
  repeat constructor; discriminate.
Defined.

(** C1 as stated fails.  With two boundary limits and a ramp of three
    colours the layer gets three stops, not two.  And a raster layer with a
    colour ramp whose symbolizer was not built gets no stop at all: the
    call raises. *)
Lemma stops_count_is_not_limits_count :
  (∃ st' c',
     add_colorizer_stops ramps dem_layer (Some [0; 100]%Q) dem_state = Ok st' ∧
     heap st' !! 0%nat = Some (RasterSymbolizer c') ∧
     length (stops c') = 3%nat ∧
     length (stops c') ≠ length [0; 100]%Q) ∧
  (is_Some (ramps !! stylename (RasterLayer_init dem 1 None)) ∧
   add_colorizer_stops ramps (RasterLayer_init dem 1 None) (Some [0; 100]%Q)
     dem_state = Raise AttributeError).
Proof.
  split.
  - eexists _, _. split; [reflexivity|]. split; [reflexivity|].
    split; [reflexivity|]. simpl. lia.
  - split; [by eexists|reflexivity].
Qed.

(** The example of the specification: limits [0, 50, 100] and a ramp of
    three colours give the three stops at 0, 50 and 100. *)
Example colorize_example :
  add_colorizer_stops ramps dem_layer (Some [0; 50; 100]%Q) dem_state =
    Ok {| mmap := mmap dem_state;
          heap := [raster_symbolizer [(0%Q, ColorName "#5e4fa2");
                                      (50%Q, ColorName "#ffffbf");
                                      (100%Q, ColorName "#9e0142")]];
          calls := [EvLinear "dem" (Some [0; 50; 100]%Q) 3] |}.
Proof. reflexivity. Qed.

(** C7: [zoom_bbox] with a bbox that is absent, empty or of area zero
    leaves the map, and the whole state, as it was. *)
Theorem zoom_bbox_noop transform b st :
  absent_or_flat b → zoom_bbox transform b st = st.
Proof.
  destruct b as [[|g]|]; simpl; try done.
  intros [Hlen|Harea].
  - by rewrite Hlen.
  - apply Qeq_bool_iff in Harea. rewrite Harea. by rewrite andb_false_r.
Qed.

Lemma zoom_bbox_noop_witness :
  zoom_bbox keep_srs (Some (BBoxGeom flat_bbox)) dem_state = dem_state.
Proof.
  apply (zoom_bbox_noop keep_srs (Some (BBoxGeom flat_bbox)) dem_state).
  right. reflexivity.
Defined.

(** C9: on a raster layer whose style name has no colour ramp,
    [add_colorizer_stops] returns and changes nothing: no stop is added to
    any colorizer and the binning of the raster is not called. *)
Theorem add_colorizer_stops_no_ramp colormap l rstore lims st :
  cls l = RasterLayer rstore →
  colormap !! stylename l = None →
  add_colorizer_stops colormap l lims st = Ok st.
Proof.
  intros Hcls Hramp. unfold add_colorizer_stops. by rewrite Hcls, Hramp.
Qed.

Lemma add_colorizer_stops_no_ramp_witness :
  add_colorizer_stops ∅ dem_layer None dem_state = Ok dem_state.
Proof.
  apply (add_colorizer_stops_no_ramp ∅ dem_layer dem None dem_state); reflexivity.
Defined.

(** ** Style registration *)

Lemma Map_layer_reuse q sty st s :
  map_styles (mmap st) !! requested_style q sty = Some s →
  ∃ l st', Map_layer q sty st = Ok (l, st') ∧
    stylename l = requested_style q sty ∧
    _symbolizer l = None ∧
    styles (_layer l) = [requested_style q sty] ∧
    map_styles (mmap st') = map_styles (mmap st) ∧
    heap st' = heap st ∧ calls st' = calls st.
Proof.
  intros Hs. unfold Map_layer, find_style.
  destruct q as [v|r]; simpl in *; rewrite Hs; simpl; eexists _, _; done.
Qed.

Lemma Map_layer_register q sty st :
  map_styles (mmap st) !! requested_style q sty = None →
  ∃ l st', Map_layer q sty st = Ok (l, st') ∧
    stylename l = requested_style q sty ∧
    _symbolizer l = Some (length (heap st)) ∧
    styles (_layer l) = [requested_style q sty] ∧
    map_styles (mmap st') =
      <[requested_style q sty := {| rules := [ {| symbols := [length (heap st)] |} ] |}]>
        (map_styles (mmap st)) ∧
    (∃ sym, heap st' = heap st ++ [sym] ∧
            (∀ r, q = QRaster r → sym = raster_symbolizer [] ∧ cls l = RasterLayer r)) ∧
    calls st' = calls st ++ [EvAppendStyle (requested_style q sty)].
Proof.
  intros Hs. unfold Map_layer, find_style.
  destruct q as [v|r]; simpl in *; rewrite Hs; simpl;
    unfold append_style; simpl; rewrite Hs; simpl; eexists _, _;
    repeat split; try done; eexists; split; try done; intros; simplify_eq; done.
Qed.

Lemma registrations_app st e calls' :
  calls' = calls st ++ [e] →
  omap (λ e, match e with EvAppendStyle n => Some n | _ => None end) calls' =
  registrations st ++ match e with EvAppendStyle n => [n] | _ => [] end.
Proof.
  intros ->. unfold registrations. rewrite omap_app. by destruct e.
Qed.

(** [Map.layer] keeps every style name registered at most once. *)
Lemma Map_layer_registered_once q sty st l st' :
  registered_once st → Map_layer q sty st = Ok (l, st') → registered_once st'.
Proof.
  intros [Hnd Hall] Hrun.
  destruct (map_styles (mmap st) !! requested_style q sty) as [s|] eqn:Hs.
  - destruct (Map_layer_reuse q sty st s Hs)
      as (l0 & st0 & Hrun0 & _ & _ & _ & Hst & _ & Hcalls).
    rewrite Hrun in Hrun0. simplify_eq.
    unfold registered_once, registrations in *. rewrite Hst, Hcalls. done.
  - destruct (Map_layer_register q sty st Hs)
      as (l0 & st0 & Hrun0 & _ & _ & _ & Hst & _ & Hcalls).
    rewrite Hrun in Hrun0. simplify_eq.
    unfold registered_once. unfold registrations at 1 2.
    rewrite (registrations_app st _ _ Hcalls), Hst. split.
    + apply NoDup_app. split; [done|]. split; [|apply NoDup_singleton].
      intros n Hn ->%list_elem_of_singleton.
      rewrite Forall_forall in Hall. destruct (Hall _ Hn) as [? ?]. congruence.
    + apply Forall_app. split.
      * eapply Forall_impl; [exact Hall|]. intros n Hn. simpl in *.
        rewrite lookup_insert_is_Some.
        destruct (decide (requested_style q sty = n)); auto.
      * apply Forall_singleton. rewrite lookup_insert_eq. eauto.
Qed.

(** C5: a style name is registered at most once.  When a layer asks for a
    style name that the registry has, the registry is left as it is and no
    style is built; so after two layers with the same style name there is
    one style under that name, and both layers refer to it. *)
Theorem style_registered_once q1 q2 sty1 sty2 st l1 st1 l2 st2 :
  registered_once st →
  Map_layer q1 sty1 st = Ok (l1, st1) →
  Map_layer q2 sty2 st1 = Ok (l2, st2) →
  stylename l1 = stylename l2 →
  registered_once st2 ∧
  (∃ s, map_styles (mmap st1) !! stylename l1 = Some s ∧
        map_styles (mmap st2) !! stylename l1 = Some s ∧
        (∀ s0, map_styles (mmap st) !! stylename l1 = Some s0 → s = s0)) ∧
  map_styles (mmap st2) = map_styles (mmap st1) ∧
  registrations st2 = registrations st1 ∧
  heap st2 = heap st1 ∧
  _symbolizer l2 = None ∧
  styles (_layer l1) = [stylename l1] ∧
  styles (_layer l2) = [stylename l1].
Proof.
  intros Hinv Hrun1 Hrun2 Hname.
  assert (Hinv1 := Map_layer_registered_once _ _ _ _ _ Hinv Hrun1).
  assert (Hinv2 := Map_layer_registered_once _ _ _ _ _ Hinv1 Hrun2).
  assert (∃ s, map_styles (mmap st1) !! stylename l1 = Some s ∧
               styles (_layer l1) = [stylename l1] ∧
               (∀ s0, map_styles (mmap st) !! stylename l1 = Some s0 → s = s0))
    as (s & Hs1 & Hl1 & Hs0).
  { destruct (map_styles (mmap st) !! requested_style q1 sty1) as [s|] eqn:Hs.
    - destruct (Map_layer_reuse q1 sty1 st s Hs)
        as (l0 & st0 & Hrun0 & Hn & _ & Hsty & Hst & _).
      rewrite Hrun1 in Hrun0. simplify_eq. rewrite Hn, Hst.
      exists s. split; [done|]. split; [done|]. intros s0 ?. congruence.
    - destruct (Map_layer_register q1 sty1 st Hs)
        as (l0 & st0 & Hrun0 & Hn & _ & Hsty & Hst & _).
      rewrite Hrun1 in Hrun0. simplify_eq. rewrite Hn, Hst.
      eexists. split; [apply lookup_insert_eq|]. split; [done|].
      intros s0 ?. congruence. }
  assert (stylename l2 = requested_style q2 sty2) as Hn2.
  { destruct (map_styles (mmap st1) !! requested_style q2 sty2) as [s'|] eqn:Hs.
    - destruct (Map_layer_reuse q2 sty2 st1 s' Hs) as (l0 & st0 & Hrun0 & Hn & _).
      rewrite Hrun2 in Hrun0. by simplify_eq.
    - destruct (Map_layer_register q2 sty2 st1 Hs) as (l0 & st0 & Hrun0 & Hn & _).
      rewrite Hrun2 in Hrun0. by simplify_eq. }
  rewrite Hname, Hn2 in Hs1.
  destruct (Map_layer_reuse q2 sty2 st1 s Hs1)
    as (l0 & st0 & Hrun0 & Hn & Hsym & Hsty & Hst & Hheap & Hcalls).
  rewrite Hrun2 in Hrun0. simplify_eq.
  split; [done|]. split.
  { exists s. rewrite Hst, Hname, Hn2. split; [done|]. split; [done|].
    rewrite Hname, Hn2 in Hs0. done. }
  split; [done|]. split; [by unfold registrations; rewrite Hcalls|].
  split; [done|]. split; [done|]. split; [done|]. by rewrite Hname, Hn2.
Qed.

Lemma fresh_state_registered_once : registered_once fresh_state.
Proof. split; [apply NoDup_nil_2 | apply Forall_nil_2]. Qed.

Lemma style_registered_once_witness :
  ∃ l1 st1 l2 st2,
    Map_layer (QRaster dem) None fresh_state = Ok (l1, st1) ∧
    Map_layer (QRaster dem) (Some "Spectral_r") st1 = Ok (l2, st2) ∧
    registered_once st2 ∧
    map_styles (mmap st2) = map_styles (mmap st1) ∧
    _symbolizer l2 = None ∧
    styles (_layer l1) = ["Spectral_r"] ∧
    styles (_layer l2) = ["Spectral_r"].
Proof.
  eexists _, _, _, _. split; [reflexivity|]. split; [reflexivity|].
  pose proof (style_registered_once (QRaster dem) (QRaster dem) None
                (Some "Spectral_r") fresh_state _ _ _ _
                fresh_state_registered_once eq_refl eq_refl eq_refl)
    as (H1 & _ & H3 & _ & _ & H6 & H7 & H8).
  exact (conj H1 (conj H3 (conj H6 (conj H7 H8)))).
Defined.

(** ** Layers whose symbolizer was never built *)

Lemma add_colorizer_stops_unbuilt colormap l rstore lims st rcolors bins :
  cls l = RasterLayer rstore →
  _symbolizer l = None →
  colormap !! stylename l = Some rcolors →
  rcolors ≠ [] →
  linear rstore lims (length rcolors) = Ok bins →
  length bins = length rcolors →
  add_colorizer_stops colormap l lims st = Raise AttributeError.
Proof.
  intros Hcls Hsym Hramp Hne Hbins Hlen. unfold add_colorizer_stops.
  rewrite Hcls, Hramp. destruct rcolors as [|c cs]; [done|].
  rewrite Hbins, Hsym. by destruct bins.
Qed.

(** C10, as amended: when [Map.layer] finds the style name of a raster
    layer in the registry it does not call [style()], and the symbolizer
    of the layer stays None.  If the style name has a colour ramp that is
    not empty, and the binning returns its k values, [add_colorizer_stops]
    on that layer raises AttributeError; with such a ramp and such bins it
    returns only on a layer whose symbolizer was built. *)
Theorem reused_style_layer_raises colormap rs sty st s l st' lims rcolors bins :
  map_styles (mmap st) !! requested_style (QRaster rs) sty = Some s →
  Map_layer (QRaster rs) sty st = Ok (l, st') →
  colormap !! stylename l = Some rcolors →
  rcolors ≠ [] →
  linear rs lims (length rcolors) = Ok bins →
  length bins = length rcolors →
  _symbolizer l = None ∧
  add_colorizer_stops colormap l lims st' = Raise AttributeError ∧
  (∀ l' st1 st2, cls l' = RasterLayer rs → stylename l' = stylename l →
     add_colorizer_stops colormap l' lims st1 = Ok st2 → is_Some (_symbolizer l')).
Proof.
  intros Hs Hrun Hramp Hne Hbins Hlen.
  destruct (Map_layer_reuse _ _ _ _ Hs) as (l0 & st0 & Hrun0 & Hn & Hsym & _).
  rewrite Hrun in Hrun0. simplify_eq.
  assert (cls l0 = RasterLayer rs) as Hcls.
  { unfold Map_layer, find_style in Hrun. simpl in *. rewrite Hs in Hrun.
    simpl in Hrun. by simplify_eq. }
  split; [done|]. split.
  - by eapply add_colorizer_stops_unbuilt.
  - intros l' st1 st2 Hcls' Hn' Hok.
    destruct (_symbolizer l') eqn:Hsym'; [eauto|].
    rewrite (add_colorizer_stops_unbuilt colormap l' rs lims st1 rcolors bins)
      in Hok; try done. by rewrite Hn'.
Qed.

Lemma reused_style_layer_raises_witness :
  ∃ l st',
    Map_layer (QRaster dem) None spectral_state = Ok (l, st') ∧
    _symbolizer l = None ∧
    add_colorizer_stops ramps l None st' = Raise AttributeError.
Proof.
  eexists _, _. split; [reflexivity|].
  pose proof (reused_style_layer_raises ramps dem None spectral_state
                {| rules := [] |} _ _ None
                ["#5e4fa2"; "#ffffbf"; "#9e0142"] [0; 100; 200]%Q
                eq_refl eq_refl eq_refl) as H.
  destruct H as (H1 & H2 & _); [discriminate | reflexivity | reflexivity |].
  exact (conj H1 H2).
Defined.

(** C10 as stated fails: a raster layer whose style name is in the
    registry, and has no colour ramp, keeps its symbolizer None, and
    [add_colorizer_stops] on it returns without raising. *)
Lemma reused_style_without_ramp_returns :
  ∃ l st',
    Map_layer (QRaster dem) (Some "plain") plain_state = Ok (l, st') ∧
    is_Some (map_styles (mmap plain_state) !! "plain") ∧
    _symbolizer l = None ∧
    add_colorizer_stops ramps l (Some [0; 100]%Q) st' = Ok st'.
Proof.
  eexists _, _. split; [reflexivity|]. split; [by eexists|].
  split; reflexivity.
Qed.

(** ** Building a map *)

Lemma zoom_bbox_keeps transform b st :
  map_styles (mmap (zoom_bbox transform b st)) = map_styles (mmap st) ∧
  heap (zoom_bbox transform b st) = heap st ∧
  calls (zoom_bbox transform b st) = calls st.
Proof.
  destruct b as [[|g]|]; simpl; try done.
  by destruct (_ && _).
Qed.

Lemma stop_loop_frame symb pairs : ∀ st st',
  stop_loop symb pairs st = Ok st' → mmap st' = mmap st ∧ calls st' = calls st.
Proof.
  induction pairs as [|vc pairs IH]; intros st st'; simpl.
  - by intros [= <-].
  - destruct (stop_step symb st vc) as [st1|] eqn:Hstep; simpl; [|done].
    intros Hloop. destruct (IH _ _ Hloop) as [-> ->].
    unfold stop_step in Hstep. destruct symb as [p|]; [|done].
    destruct (heap st !! p) as [[| | |c]|]; by simplify_eq.
Qed.

Lemma add_colorizer_stops_registered_once colormap l lims st st' :
  registered_once st → add_colorizer_stops colormap l lims st = Ok st' →
  registered_once st'.
Proof.
  unfold add_colorizer_stops. intros Hinv.
  destruct (cls l) as [|rs]; [done|].
  destruct (colormap !! stylename l) as [[|c cs]|]; try (by intros [= <-]).
  destruct (linear rs lims _) as [bins|]; simpl; [|done].
  intros [Hmap Hcalls]%stop_loop_frame. simpl in *.
  unfold registered_once, registrations in *. rewrite Hmap, Hcalls.
  rewrite omap_app. simpl. by rewrite app_nil_r.
Qed.

Lemma build_layers_registered_once colormap qs sty lims : ∀ st st',
  registered_once st → build_layers colormap qs sty lims st = Ok st' →
  registered_once st'.
Proof.
  induction qs as [|q qs IH]; intros st st' Hinv; simpl.
  - by intros [= <-].
  - destruct (Map_layer q sty st) as [[l st1]|] eqn:Hl; simpl; [|done].
    pose proof (Map_layer_registered_once _ _ _ _ _ Hinv Hl) as Hinv1.
    destruct (is_raster l).
    + destruct (add_colorizer_stops colormap l lims st1) as [st2|] eqn:Hst2;
        simpl; [|done].
      apply IH. by eapply add_colorizer_stops_registered_once.
    + simpl. by apply IH.
Qed.

(** In every map that [build_map] returns, each style name was registered
    at most once. *)
Lemma build_map_registered_once colormap load_map transform qs tileform st :
  build_map colormap load_map transform qs tileform = Ok st → registered_once st.
Proof.
  unfold build_map, Map_init.
  destruct (match load_map _ with Ok mh => _ | Raise e => _ end) as [[m h]|];
    simpl; [|done].
  apply build_layers_registered_once.
  destruct (zoom_bbox_keeps transform (bbox (form_data tileform))
              {| mmap := {| width := width m; height := height m;
                            buffer_size := 128; srs := "+init=epsg:3857";
                            map_styles := map_styles m; layers := layers m;
                            extent := extent m |};
                 heap := h; calls := [] |}) as (_ & _ & Hcalls).
  unfold registered_once, registrations. rewrite Hcalls. simpl.
  split; [apply NoDup_nil_2 | apply Forall_nil_2].
Qed.

(** The loop of [build_map] over querysets in a row. *)
Lemma build_layers_app colormap qs1 qs2 sty lims : ∀ st,
  build_layers colormap (qs1 ++ qs2) sty lims st =
    (st' ← build_layers colormap qs1 sty lims st;
     build_layers colormap qs2 sty lims st').
Proof.
  induction qs1 as [|q qs1 IH]; intros st; simpl; [done|].
  destruct (Map_layer q sty st) as [[l st1]|]; simpl; [|done].
  destruct (if is_raster l then _ else _) as [st2|]; simpl; [|done]. apply IH.
Qed.

(** Stops go to the symbolizer of the layer and to no other. *)
Lemma stop_loop_others symb pairs : ∀ st st',
  stop_loop symb pairs st = Ok st' →
  length (heap st') = length (heap st) ∧
  ∀ i, symb ≠ Some i → heap st' !! i = heap st !! i.
Proof.
  induction pairs as [|vc pairs IH]; intros st st'; simpl.
  - by intros [= <-].
  - destruct (stop_step symb st vc) as [st1|] eqn:Hstep; simpl; [|done].
    intros Hloop. destruct (IH _ _ Hloop) as [Hlen Hkeep].
    unfold stop_step in Hstep. destruct symb as [p|]; [|done].
    destruct (heap st !! p) as [[| | |c]|]; simplify_eq. simpl in *.
    rewrite length_insert in Hlen. split; [done|].
    intros i Hi. rewrite Hkeep by done.
    apply list_lookup_insert_ne. congruence.
Qed.

Lemma add_colorizer_stops_others colormap l lims st st' :
  add_colorizer_stops colormap l lims st = Ok st' →
  length (heap st') = length (heap st) ∧
  ∀ i, _symbolizer l ≠ Some i → heap st' !! i = heap st !! i.
Proof.
  unfold add_colorizer_stops.
  destruct (cls l) as [|rs]; [done|].
  destruct (colormap !! stylename l) as [[|c cs]|]; try (by intros [= <-]).
  destruct (linear rs lims _) as [bins|]; simpl; [|done].
  intros Hloop. by apply stop_loop_others in Hloop.
Qed.

(** [Map.layer] leaves the symbolizers that are there as they are; the
    symbolizer of the layer, if it has one, is a new one. *)
Lemma Map_layer_heap q sty st l st' :
  Map_layer q sty st = Ok (l, st') →
  (length (heap st) ≤ length (heap st'))%nat ∧
  (∀ i, (i < length (heap st))%nat → heap st' !! i = heap st !! i) ∧
  (∀ p, _symbolizer l = Some p → (length (heap st) ≤ p)%nat).
Proof.
  intros Hrun.
  destruct (map_styles (mmap st) !! requested_style q sty) as [s|] eqn:Hs.
  - destruct (Map_layer_reuse q sty st s Hs)
      as (l0 & st0 & Hrun0 & _ & Hsym & _ & _ & Hheap & _).
    rewrite Hrun in Hrun0. simplify_eq. rewrite Hheap, Hsym. done.
  - destruct (Map_layer_register q sty st Hs)
      as (l0 & st0 & Hrun0 & _ & Hsym & _ & _ & (sym & Hheap & _) & _).
    rewrite Hrun in Hrun0. simplify_eq. rewrite Hheap, Hsym, length_app.
    split; [lia|]. split.
    + intros i Hi. by rewrite lookup_app_l.
    + intros p [= <-]. done.
Qed.

(** The loop of [build_map] leaves the symbolizers that are there as they
    are. *)
Lemma build_layers_heap colormap qs sty lims : ∀ st st',
  build_layers colormap qs sty lims st = Ok st' →
  (length (heap st) ≤ length (heap st'))%nat ∧
  ∀ i, (i < length (heap st))%nat → heap st' !! i = heap st !! i.
Proof.
  induction qs as [|q qs IH]; intros st st'; simpl.
  - by intros [= <-].
  - destruct (Map_layer q sty st) as [[l st1]|] eqn:Hl; simpl; [|done].
    destruct (Map_layer_heap _ _ _ _ _ Hl) as (Hlen1 & Hkeep1 & Hnew).
    destruct (is_raster l).
    + destruct (add_colorizer_stops colormap l lims st1) as [st2|] eqn:Hst2;
        simpl; [|done].
      destruct (add_colorizer_stops_others _ _ _ _ _ Hst2) as [Hlen2 Hkeep2].
      intros [Hlen Hkeep]%IH. split; [lia|]. intros i Hi.
      rewrite Hkeep by lia. rewrite Hkeep2; [by apply Hkeep1|].
      intros Hp. apply Hnew in Hp. lia.
    + simpl. intros [Hlen Hkeep]%IH. split; [lia|]. intros i Hi.
      rewrite Hkeep by lia. by apply Hkeep1.
Qed.

(** C6, as amended: whether the form data has boundary limits does not
    decide whether a raster layer gets colorizer stops; the limits, present
    or not, are handed to the binning of the raster.  For a raster layer
    whose style name is free in the registry when its turn comes (neither
    the map template nor a layer before it registered the name), so that
    [Map.layer] builds its symbolizer, and whose style name has a colour
    ramp: when the binning of the raster returns, the symbolizer of the
    layer gets one stop for each pair of [zip(bins, rcolors)].  [build_map]
    returns with these stops when the layer is the last one, and every map
    that it returns with further querysets after it holds them. *)
Theorem build_map_stops_whatever_limits
    colormap load_map transform pre rs post tileform st0 st1 rcolors bins :
  Map_init load_map = Ok st0 →
  build_layers colormap pre (style (form_data tileform)) (limits (form_data tileform))
    (zoom_bbox transform (bbox (form_data tileform)) st0) = Ok st1 →
  map_styles (mmap st1) !! str_or (style (form_data tileform)) "Spectral_r" = None →
  colormap !! str_or (style (form_data tileform)) "Spectral_r" = Some rcolors →
  linear rs (limits (form_data tileform)) (length rcolors) = Ok bins →
  (∃ st, build_map colormap load_map transform (pre ++ [QRaster rs]) tileform = Ok st ∧
         heap st = heap st1 ++ [raster_symbolizer (new_stops bins rcolors)]) ∧
  (∀ st, build_map colormap load_map transform (pre ++ QRaster rs :: post) tileform
           = Ok st →
         heap st !! length (heap st1)
           = Some (raster_symbolizer (new_stops bins rcolors))).
Proof.
  intros Hinit Hpre Hfree Hramp Hbins.
  destruct (Map_layer_register (QRaster rs) (style (form_data tileform)) st1)
    as (l & st' & Hrun & Hn & Hsym & _ & _ & (sym & Hheap & Hr) & _); [done|].
  destruct (Hr rs eq_refl) as [-> Hcls].
  destruct (add_colorizer_stops_built colormap l rs (limits (form_data tileform))
              st' (length (heap st1))
              {| default_mode := COLORIZER_LINEAR;
                 default_color := ColorRGBA 0 0 0 0; stops := [] |}
              rcolors bins) as (st2 & Hrun2 & _ & Hheap2); try done.
  { rewrite Hheap. by apply list_lookup_middle. }
  { by rewrite Hn. }
  assert (heap st2 = heap st1 ++ [raster_symbolizer (new_stops bins rcolors)]) as Hst2.
  { rewrite Hheap2, Hheap. simpl.
    rewrite insert_app_r_alt by lia. by rewrite Nat.sub_diag. }
  assert (∀ qs, build_map colormap load_map transform (pre ++ QRaster rs :: qs) tileform
                = build_layers colormap qs (style (form_data tileform))
                    (limits (form_data tileform)) st2) as Hstep.
  { intros qs. unfold build_map. rewrite Hinit. simpl.
    rewrite build_layers_app, Hpre. simpl. rewrite Hrun. simpl.
    unfold is_raster. rewrite Hcls, Hrun2. done. }
  split.
  - exists st2. split; [|done]. by rewrite Hstep.
  - intros st. rewrite Hstep. intros [_ Hkeep]%build_layers_heap.
    rewrite Hkeep, Hst2; [by apply list_lookup_middle|].
    rewrite Hst2, length_app. simpl. lia.
Qed.

Lemma build_map_stops_whatever_limits_witness :
  ∃ st, build_map ramps no_mapfile keep_srs ([QVector roads] ++ [QRaster dem]) bare_form
          = Ok st ∧
        heap st = heap roads_state
                    ++ [raster_symbolizer
                          (new_stops [0; 100; 200]%Q
                             ["#5e4fa2"; "#ffffbf"; "#9e0142"])].
Proof.
  refine (proj1 (build_map_stops_whatever_limits ramps no_mapfile keep_srs
                   [QVector roads] dem [QVector roads] bare_form blank_state
                   roads_state ["#5e4fa2"; "#ffffbf"; "#9e0142"] [0; 100; 200]%Q
                   _ _ _ _ _)); vm_compute; reflexivity.
Defined.

(** C6 as stated fails: a form without limits, and the raster layer of
    the map gets its three stops all the same. *)
Lemma stops_without_limits :
  limits (form_data bare_form) = None ∧
  ∃ st c, build_map ramps no_mapfile keep_srs [QRaster dem] bare_form = Ok st ∧
          heap st !! 0%nat = Some (RasterSymbolizer c) ∧
          stops c = [(0%Q, ColorName "#5e4fa2"); (100%Q, ColorName "#ffffbf");
                     (200%Q, ColorName "#9e0142")].
Proof.
  split; [reflexivity|]. eexists _, _. split; [reflexivity|].
  split; reflexivity.
Qed.

(** Two rasters on one map share the default style: the second layer is
    never styled, and attaching its stops raises. *)
Example build_map_two_rasters :
  build_map ramps no_mapfile keep_srs [QRaster dem; QRaster dem] bare_form
  = Raise AttributeError.
Proof. reflexivity. Qed.

End CartoSpec.

(** * Properties of the feature documents *)

Section CollectionsSpec.

Import Collections.

(** ** Lists of fallible results *)


Lemma mapM_result_Ok {A B} (f : A → result B) l ys :
  mapM f l = Ok ys →
  length ys = length l ∧
  ∀ i x, l !! i = Some x → ∃ y, ys !! i = Some y ∧ f x = Ok y.
Proof.
  revert ys. induction l as [|a l IH]; intros ys; simpl.
  - intros [= <-]. split; [done|]. intros i x Hi. by destruct i.
  - destruct (f a) as [b|e] eqn:Hfa; simpl; [|done].
    destruct (mapM f l) as [bs|e] eqn:Hl; simpl; [|done].
    intros [= <-]. destruct (IH bs eq_refl) as [Hlen Hnth].
    split; [simpl; by rewrite Hlen|].
    intros [|i] x Hi; simpl in *; [simplify_eq; eauto|eauto].
Qed.


(** ** The membership tests *)

Lemma contains_no_other_error key x e :
  contains key x = Raise e → e = TypeError.
Proof. destruct x; simpl; congruence. Qed.

(** The membership tests of the coercion never raise. *)
Lemma has_features_returns x : ∃ b, has_features x = Ok b.
Proof. unfold has_features. destruct x; simpl; eauto. Qed.


(** ** The constructors *)

Lemma dict_update_nothing self kwargs :
  dict_update self (PTuple []) kwargs = Ok (kwargs ∪ self).
Proof. reflexivity. Qed.


Lemma Feature_init_class d y : Feature_init d = Ok y → is_Feature y = true.
Proof.
  unfold Feature_init. destruct (bool_decide _); [done|].
  destruct (set_crs _ _) as [s|]; simpl; [|done].
  destruct (dict_update _ _ _); simpl; [|done]. by intros [= <-].
Qed.



(** C8: coercion is idempotent on what it classifies: when [as_feature x]
    is a Feature or a FeatureCollection, coercing it again returns it
    unchanged. *)
Theorem as_feature_idempotent x y :
  as_feature x = Ok y →
  is_Feature y || is_FeatureCollection y = true →
  (as_feature x ≫= as_feature) = as_feature x.
Proof.
  intros Hx Hy. rewrite Hx. simpl. unfold as_feature. by rewrite Hy.
Qed.

(** ** Collections of raw mappings *)

Lemma rest_args_features (v : pyval) :
  rest_args ["features"; "crs"; "iterable"] {["features" := v]} = ∅.
Proof.
  unfold rest_args. simpl. apply map_eq. intros k.
  rewrite lookup_empty. apply lookup_delete_None.
  destruct (decide ("features" = k)) as [<-|Hk]; [left; done|right].
  rewrite lookup_delete_None. right.
  rewrite lookup_delete_None. right. by apply lookup_singleton_ne.
Qed.

(** [FeatureCollection(features=v)] *)
Lemma FeatureCollection_init_features v :
  FeatureCollection_init {["features" := v]} =
    (fs ← features_value v; Ok (collection_of fs)).
Proof.
  unfold FeatureCollection_init, arg. rewrite rest_args_features.
  rewrite lookup_singleton_eq, !lookup_singleton_ne by done. simpl.
  destruct (features_value v); simpl; [|done]. unfold collection_of.
  by rewrite (left_id_L ∅ (∪)).
Qed.




(** ** Inputs on which the coercion returns *)



(** ** Examples *)

Example as_feature_raw_feature :
  as_feature (raw_feature 1 2 "a") =
    Ok (PDict FeatureClass
          {[ "type" := PStr "Feature"; "id" := PNone;
             "geometry" := point 1 2;
             "properties" := PDict Dict {[ "name" := PStr "a" ]} ]}).
Proof. vm_compute. reflexivity. Qed.

Example as_feature_empty_dict :
  as_feature (PDict Dict ∅) =
    Ok (PDict FeatureClass
          {[ "type" := PStr "Feature"; "id" := PNone;
             "geometry" := PDict Dict ∅; "properties" := PDict Dict ∅ ]}).
Proof. vm_compute. reflexivity. Qed.

Lemma as_feature_idempotent_witness :
  (as_feature (raw_feature 1 2 "a") ≫= as_feature) = as_feature (raw_feature 1 2 "a").
Proof.
  eapply (as_feature_idempotent (raw_feature 1 2 "a")); [reflexivity|reflexivity].
Defined.



(** So does a string that is not empty, and a mapping whose [features] is
    a number. *)
Example coercing_a_string_raises : as_feature (PStr "abc") = Raise TypeError.
Proof. reflexivity. Qed.

Example coercing_bad_features_raises :
  as_feature (PDict Dict {[ "features" := PInt 5 ]}) = Raise TypeError.
Proof. reflexivity. Qed.


End CollectionsSpec.

(** * Properties of the serialization *)

Section JsonSpec.

Import Collections.

Local Arguments String.append !_ _ / : simpl nomatch.

(** ** Texts *)

Lemma append_assoc (a b c : string) : (a +:+ b) +:+ c = a +:+ (b +:+ c).
Proof. induction a as [|x a IH]; simpl; [done|]. by rewrite IH. Qed.

Lemma append_nil_r (a : string) : a +:+ "" = a.
Proof. induction a as [|x a IH]; simpl; [done|]. by rewrite IH. Qed.

Lemma length_append (a b : string) :
  String.length (a +:+ b) = (String.length a + String.length b)%nat.
Proof. induction a as [|x a IH]; simpl; [done|]. by rewrite IH. Qed.

Lemma skip_ws_nonblank s t :
  skip_ws s ≠ "" → skip_ws (s +:+ t) = skip_ws s +:+ t.
Proof.
  induction s as [|c s IH]; simpl; [done|].
  destruct (is_ws c); [done|]. done.
Qed.

Lemma skip_ws_blank s t : skip_ws s = "" → skip_ws (s +:+ t) = skip_ws t.
Proof.
  induction s as [|c s IH]; simpl; [done|].
  destruct (is_ws c); [done|]. done.
Qed.

Lemma skip_ws_idem s : skip_ws (skip_ws s) = skip_ws s.
Proof.
  induction s as [|c s IH]; simpl; [done|].
  destruct (is_ws c) eqn:Hc; [done|]. simpl. by rewrite Hc.
Qed.

Lemma skip_ws_length s : (String.length (skip_ws s) ≤ String.length s)%nat.
Proof.
  induction s as [|c s IH]; simpl; [done|].
  destruct (is_ws c); simpl; lia.
Qed.

(** ** Strings *)

(** The decoder reads back what the encoder writes for a character. *)
Lemma scan_escape_char c x :
  scan_string (escape_char c +:+ x) =
    '(y, r) ← scan_string x; Some (String c y, r).
Proof.
  destruct c as [[] [] [] [] [] [] [] []]; reflexivity.
Qed.

Lemma scan_string_escape s t :
  scan_string (escape s +:+ String dquote t) = Some (s, t).
Proof.
  induction s as [|c s IH]; simpl; [done|].
  rewrite append_assoc, scan_escape_char, IH. done.
Qed.

(** What follows a string does not change how it is read. *)
Lemma scan_string_ext_bound n : ∀ s x r t,
  (String.length s ≤ n)%nat →
  scan_string s = Some (x, r) → scan_string (s +:+ t) = Some (x, r +:+ t).
Proof.
  induction n as [|n IH]; intros s x r t Hlen Hs.
  { destruct s; simpl in *; [done|lia]. }
  destruct s as [|c s]; [done|]. simpl in *.
  destruct (c =? dquote)%char; [by simplify_eq|].
  destruct (c =? backslash)%char.
  - destruct s as [|e s]; [done|]. simpl in *.
    destruct (e =? "u")%char.
    + destruct s as [|h1 [|h2 [|h3 [|h4 s]]]]; try done. simpl in *.
      destruct (hex4 h1 h2 h3 h4) as [k|]; simpl in *; [|done].
      destruct (k <? 256)%nat; [|done].
      destruct (scan_string s) as [[y r']|] eqn:Hy; simpl in *; [|done].
      simplify_eq. rewrite (IH s y r t) by (done || lia). done.
    + destruct (unescape e) as [c'|]; simpl in *; [|done].
      destruct (scan_string s) as [[y r']|] eqn:Hy; simpl in *; [|done].
      simplify_eq. rewrite (IH s y r t) by (done || lia). done.
  - destruct (nat_of_ascii c <? 32)%nat; [done|].
    destruct (scan_string s) as [[y r']|] eqn:Hy; simpl in *; [|done].
    simplify_eq. rewrite (IH s y r t) by (done || lia). done.
Qed.

Lemma scan_string_ext s x r t :
  scan_string s = Some (x, r) → scan_string (s +:+ t) = Some (x, r +:+ t).
Proof. by apply (scan_string_ext_bound (String.length s)). Qed.

(** ** Integers *)

Lemma scan_uint_chars d t :
  no_digit_head t → scan_uint (uint_chars d +:+ t) = (d, t).
Proof.
  intros Ht. induction d; simpl; try (by rewrite IHd).
  destruct t as [|c t]; simpl in *; [done|]. by rewrite Ht.
Qed.

Lemma to_uint_head p :
  ∃ c s, uint_chars (Pos.to_uint p) = String c s ∧
         (c =? "0")%char = false ∧ is_Some (digit_of c).
Proof.
  pose proof (Unsigned.to_uint_nonnil p) as Hnil.
  pose proof (Unsigned.to_uint_nonzero p) as Hzero.
  assert (unorm (Pos.to_uint p) = Pos.to_uint p) as Hnorm.
  { rewrite <- (Unsigned.to_of (Pos.to_uint p)), Unsigned.of_to. done. }
  destruct (Pos.to_uint p) as [|d|d|d|d|d|d|d|d|d|d] eqn:Hd; try done;
    try (simpl; eexists _, _; split; [done|]; split; [done|]; by eexists).
  exfalso. unfold unorm in Hnorm.
  pose proof (nzhead_nonzero (D0 d) d) as Hnz.
  destruct (nzhead (D0 d)) eqn:Hh; simplify_eq; try done.
Qed.

Lemma scan_int_str z t :
  no_digit_head t → scan_int (str_int z +:+ t) = Some (z, t).
Proof.
  intros Ht. rewrite <- (DecimalZ.of_to z) at 2. unfold str_int.
  destruct z as [|p|p]; simpl.
  - done.
  - destruct (to_uint_head p) as (c & s & Hs & Hc0 & [f Hf]).
    pose proof (scan_uint_chars (Pos.to_uint p) t Ht) as Hscan.
    rewrite Hs in *. simpl in *. rewrite Hf in Hscan.
    assert ((c =? "-")%char = false) as ->.
    { destruct (Ascii.eqb_spec c "-"); [|done]. by subst. }
    rewrite Hc0, Hf, Hscan. done.
  - destruct (to_uint_head p) as (c & s & Hs & Hc0 & [f Hf]).
    pose proof (scan_uint_chars (Pos.to_uint p) t Ht) as Hscan.
    rewrite Hs in *. simpl in *. rewrite Hf in Hscan.
    rewrite Hc0, Hf, Hscan. done.
Qed.

Lemma scan_uint_ext s d r t :
  scan_uint s = (d, r) → r ≠ "" ∨ no_digit_head t →
  scan_uint (s +:+ t) = (d, r +:+ t).
Proof.
  revert d r. induction s as [|c s IH]; intros d r Hs Hr; simpl in *.
  - simplify_eq. destruct Hr as [?|Ht]; [done|].
    simpl. destruct t as [|c t]; simpl in *; [done|]. by rewrite Ht.
  - destruct (digit_of c) as [f|] eqn:Hc.
    + destruct (scan_uint s) as [d' r'] eqn:Hs'. simplify_eq.
      by rewrite (IH d' r) by done.
    + by simplify_eq.
Qed.

Lemma scan_nat_ext s d r t :
  scan_nat s = Some (d, r) → r ≠ "" ∨ no_digit_head t →
  scan_nat (s +:+ t) = Some (d, r +:+ t).
Proof.
  destruct s as [|c s]; [done|]. intros Hs Hr. simpl in *.
  destruct (c =? "0")%char; [by simplify_eq|].
  destruct (digit_of c) as [f|] eqn:Hc; [|done].
  destruct (scan_uint s) as [d' r'] eqn:Hs'. simplify_eq.
  by rewrite (scan_uint_ext s d' r t).
Qed.

Local Arguments scan_nat : simpl never.

Lemma scan_int_ext s z r t :
  scan_int s = Some (z, r) → r ≠ "" ∨ no_digit_head t →
  scan_int (s +:+ t) = Some (z, r +:+ t).
Proof.
  destruct s as [|c s]; [done|]. intros Hs Hr. simpl in *.
  destruct (c =? "-")%char.
  - destruct (scan_nat s) as [[d r']|] eqn:Hd; simpl in *; [|done].
    simplify_eq. by rewrite (scan_nat_ext s d r t).
  - destruct (scan_nat (String c s)) as [[d r']|] eqn:Hd; simpl in *; [|done].
    simplify_eq. change (String c (s +:+ t)) with (String c s +:+ t).
    by rewrite (scan_nat_ext _ d r t).
Qed.

Local Arguments scan_int : simpl never.
Local Arguments scan_string : simpl never.

(** ** The decoder *)

Lemma strip_prefix_ext p s r t :
  strip_prefix p s = Some r → strip_prefix p (s +:+ t) = Some (r +:+ t).
Proof.
  revert s. induction p as [|a p IH]; intros [|b s]; simpl; try done.
  - by intros [= <-].
  - by intros [= <-].
  - destruct (a =? b)%char; [apply IH|done].
Qed.

(** More fuel does not change a result. *)
Lemma parse_elements_mono pv pv' n : ∀ n' s x,
  (∀ s x, pv s = Some x → pv' s = Some x) → (n ≤ n')%nat →
  parse_elements pv n s = Some x → parse_elements pv' n' s = Some x.
Proof.
  induction n as [|n IH]; intros [|n'] s x Hpv Hle; simpl; try done; try lia.
  destruct (pv s) as [[v r]|] eqn:Hv; simpl; [|done].
  rewrite (Hpv _ _ Hv). simpl.
  destruct (skip_ws r) as [|c r']; [done|].
  destruct (c =? "]")%char; [done|].
  destruct (c =? ",")%char; [|done].
  destruct (parse_elements pv n (skip_ws r')) as [[vs r'']|] eqn:Hvs;
    simpl; [|done].
  rewrite (IH n' _ (vs, r'') Hpv) by (done || lia). done.
Qed.

Lemma parse_members_mono pv pv' n : ∀ n' s x,
  (∀ s x, pv s = Some x → pv' s = Some x) → (n ≤ n')%nat →
  parse_members pv n s = Some x → parse_members pv' n' s = Some x.
Proof.
  induction n as [|n IH]; intros [|n'] s x Hpv Hle; simpl; try done; try lia.
  destruct s as [|q r0]; [done|].
  destruct (q =? dquote)%char; [|done].
  destruct (scan_string r0) as [[k r1]|]; simpl; [|done].
  destruct (skip_ws r1) as [|c r2]; [done|].
  destruct (c =? ":")%char; [|done].
  destruct (pv (skip_ws r2)) as [[v r3]|] eqn:Hv; simpl; [|done].
  rewrite (Hpv _ _ Hv). simpl.
  destruct (skip_ws r3) as [|c' r4]; [done|].
  destruct (c' =? "}")%char; [done|].
  destruct (c' =? ",")%char; [|done].
  destruct (parse_members pv n (skip_ws r4)) as [[kvs r5]|] eqn:Hkvs;
    simpl; [|done].
  rewrite (IH n' _ (kvs, r5) Hpv) by (done || lia). done.
Qed.

Local Arguments parse_elements : simpl never.
Local Arguments parse_members : simpl never.
Local Arguments strip_prefix : simpl never.

Lemma parse_value_mono n : ∀ n' s x,
  (n ≤ n')%nat → parse_value n s = Some x → parse_value n' s = Some x.
Proof.
  induction n as [|n IH]; intros [|n'] s x Hle; simpl; try done; try lia.
  destruct s as [|c r]; [done|].
  destruct (c =? dquote)%char; [done|].
  destruct (c =? "{")%char.
  { destruct (skip_ws r) as [|c' r']; [done|].
    destruct (c' =? "}")%char; [done|].
    destruct (parse_members _ n _) as [[kvs r'']|] eqn:Hkvs; simpl; [|done].
    rewrite (parse_members_mono (parse_value n) (parse_value n') n n' _ (kvs, r''));
      try done; try lia.
    intros s' x'. apply IH. lia. }
  destruct (c =? "[")%char.
  { destruct (skip_ws r) as [|c' r']; [done|].
    destruct (c' =? "]")%char; [done|].
    destruct (parse_elements _ n _) as [[vs r'']|] eqn:Hvs; simpl; [|done].
    rewrite (parse_elements_mono (parse_value n) (parse_value n') n n' _ (vs, r''));
      try done; try lia.
    intros s' x'. apply IH. lia. }
  done.
Qed.

(** What follows a value does not change how it is read, as long as it
    does not make a number longer. *)
Lemma parse_elements_ext pv t n : ∀ s vs r,
  pv "" = None →
  (∀ s v r, pv s = Some (v, r) → r ≠ "" → pv (s +:+ t) = Some (v, r +:+ t)) →
  parse_elements pv n s = Some (vs, r) →
  parse_elements pv n (s +:+ t) = Some (vs, r +:+ t).
Proof.
  induction n as [|n IH]; intros s vs r Hnil Hpv; [done|].
  unfold parse_elements; fold parse_elements.
  destruct (pv s) as [[v r1]|] eqn:Hv; simpl; [|done].
  destruct (skip_ws r1) as [|c r'] eqn:Hr1; [done|].
  rewrite (Hpv _ _ _ Hv) by (by intros ->). simpl.
  rewrite skip_ws_nonblank by (by rewrite Hr1). rewrite Hr1. simpl.
  destruct (c =? "]")%char; [by intros [= <- <-]|].
  destruct (c =? ",")%char; [|done].
  destruct (parse_elements pv n (skip_ws r')) as [[vs' r'']|] eqn:Hvs;
    simpl; [|done].
  intros [= <- <-].
  rewrite skip_ws_nonblank.
  - by rewrite (IH _ _ _ Hnil Hpv Hvs).
  - intros Hblank. rewrite Hblank in Hvs. destruct n; [done|].
    unfold parse_elements in Hvs. by rewrite Hnil in Hvs.
Qed.

Lemma parse_members_ext pv t n : ∀ s kvs r,
  (∀ s v r, pv s = Some (v, r) → r ≠ "" → pv (s +:+ t) = Some (v, r +:+ t)) →
  pv "" = None →
  parse_members pv n s = Some (kvs, r) →
  parse_members pv n (s +:+ t) = Some (kvs, r +:+ t).
Proof.
  induction n as [|n IH]; intros s kvs r Hpv Hnil; [done|].
  unfold parse_members; fold parse_members.
  destruct s as [|q r0]; [done|]. simpl.
  destruct (q =? dquote)%char; [|done].
  destruct (scan_string r0) as [[k r1]|] eqn:Hk; simpl; [|done].
  rewrite (scan_string_ext _ _ _ t Hk). simpl.
  destruct (skip_ws r1) as [|c r2] eqn:Hr1; [done|].
  rewrite skip_ws_nonblank by (by rewrite Hr1). rewrite Hr1. simpl.
  destruct (c =? ":")%char; [|done].
  destruct (pv (skip_ws r2)) as [[v r3]|] eqn:Hv; simpl; [|done].
  destruct (skip_ws r3) as [|c' r4] eqn:Hr3; [done|].
  rewrite skip_ws_nonblank by (intros Hblank; by rewrite Hblank, Hnil in Hv).
  rewrite (Hpv _ _ _ Hv) by (by intros ->). simpl.
  rewrite skip_ws_nonblank by (by rewrite Hr3). rewrite Hr3. simpl.
  destruct (c' =? "}")%char; [by intros [= <- <-]|].
  destruct (c' =? ",")%char; [|done].
  destruct (parse_members pv n (skip_ws r4)) as [[kvs' r5]|] eqn:Hkvs;
    simpl; [|done].
  intros [= <- <-].
  rewrite skip_ws_nonblank.
  - by rewrite (IH _ _ _ Hpv Hnil Hkvs).
  - intros Hblank. rewrite Hblank in Hkvs. destruct n; [done|]. done.
Qed.

Lemma strip_prefix_cons a p b s :
  strip_prefix (String a p) (String b s) =
    if (a =? b)%char then strip_prefix p s else None.
Proof. reflexivity. Qed.

Lemma parse_value_nil n : parse_value n "" = None.
Proof. by destruct n. Qed.

Lemma parse_value_ext n : ∀ s v r t,
  parse_value n s = Some (v, r) → r ≠ "" ∨ no_digit_head t →
  parse_value n (s +:+ t) = Some (v, r +:+ t).
Proof.
  induction n as [|n IH]; intros s v r t; [done|].
  destruct s as [|c r0]; [done|]. simpl.
  destruct (c =? dquote)%char.
  { destruct (scan_string r0) as [[x r']|] eqn:Hx; simpl; [|done].
    intros [= <- <-] _. by rewrite (scan_string_ext _ _ _ t Hx). }
  destruct (c =? "{")%char.
  { destruct (skip_ws r0) as [|c' r'] eqn:Hr0; [done|].
    rewrite skip_ws_nonblank by (by rewrite Hr0). rewrite Hr0. simpl.
    destruct (c' =? "}")%char; [by intros [= <- <-]|].
    destruct (parse_members _ n _) as [[kvs r'']|] eqn:Hkvs; simpl; [|done].
    intros [= <- <-] _.
    change (String c' (r' +:+ t)) with (String c' r' +:+ t).
    rewrite (parse_members_ext _ t n _ _ _ (λ s v r H Hr, IH s v r t H (or_introl Hr))
               (parse_value_nil n) Hkvs). done. }
  destruct (c =? "[")%char.
  { destruct (skip_ws r0) as [|c' r'] eqn:Hr0; [done|].
    rewrite skip_ws_nonblank by (by rewrite Hr0). rewrite Hr0. simpl.
    destruct (c' =? "]")%char; [by intros [= <- <-]|].
    destruct (parse_elements _ n _) as [[vs r'']|] eqn:Hvs; simpl; [|done].
    intros [= <- <-] _.
    change (String c' (r' +:+ t)) with (String c' r' +:+ t).
    rewrite (parse_elements_ext _ t n _ _ _ (parse_value_nil n)
               (λ s v r H Hr, IH s v r t H (or_introl Hr)) Hvs). done. }
  change (String c (r0 +:+ t)) with (String c r0 +:+ t).
  destruct (strip_prefix "null" (String c r0)) as [r'|] eqn:Hnull.
  { intros [= <- <-] _. by rewrite (strip_prefix_ext _ _ _ t Hnull). }
  destruct (strip_prefix "true" (String c r0)) as [r'|] eqn:Htrue.
  { intros [= <- <-] _.
    assert (strip_prefix "null" (String c r0 +:+ t) = None) as ->.
    { change (String c r0 +:+ t) with (String c (r0 +:+ t)).
      rewrite strip_prefix_cons in *.
      destruct ("n" =? c)%char eqn:Hn; [|done].
      apply Ascii.eqb_eq in Hn. by subst c. }
    by rewrite (strip_prefix_ext _ _ _ t Htrue). }
  destruct (strip_prefix "false" (String c r0)) as [r'|] eqn:Hfalse.
  { intros [= <- <-] _.
    assert (strip_prefix "null" (String c r0 +:+ t) = None) as ->.
    { change (String c r0 +:+ t) with (String c (r0 +:+ t)).
      rewrite strip_prefix_cons in *.
      destruct ("n" =? c)%char eqn:Hn; [|done].
      apply Ascii.eqb_eq in Hn. by subst c. }
    assert (strip_prefix "true" (String c r0 +:+ t) = None) as ->.
    { change (String c r0 +:+ t) with (String c (r0 +:+ t)).
      rewrite strip_prefix_cons in *.
      destruct ("t" =? c)%char eqn:Hn; [|done].
      apply Ascii.eqb_eq in Hn. by subst c. }
    by rewrite (strip_prefix_ext _ _ _ t Hfalse). }
  destruct (scan_int (String c r0)) as [[z r']|] eqn:Hz; simpl; [|done].
  intros [= <- <-] Hr.
  assert (∀ p a, digit_of a = None → (a =? "-")%char = false →
                 strip_prefix (String a p) (String c r0 +:+ t) = None) as Hlit.
  { intros p a Ha Hminus.
    change (String c r0 +:+ t) with (String c (r0 +:+ t)).
    rewrite strip_prefix_cons.
    destruct (a =? c)%char eqn:Hac; [|done].
    apply Ascii.eqb_eq in Hac. subst a. exfalso.
    unfold scan_int in Hz. rewrite Hminus in Hz. unfold scan_nat in Hz.
    destruct (c =? "0")%char eqn:Hc0.
    { apply Ascii.eqb_eq in Hc0. by subst c. }
    by rewrite Ha in Hz. }
  rewrite !Hlit by done.
  change (String c (r0 +:+ t)) with (String c r0 +:+ t).
  by rewrite (scan_int_ext _ _ _ t Hz Hr).
Qed.

(** The decoder returns documents. *)
Lemma parse_elements_Forall (P : pyval → Prop) pv n : ∀ s vs r,
  (∀ s v r, pv s = Some (v, r) → P v) →
  parse_elements pv n s = Some (vs, r) → Forall P vs.
Proof.
  induction n as [|n IH]; intros s vs r Hpv; [done|].
  unfold parse_elements; fold parse_elements.
  destruct (pv s) as [[v r1]|] eqn:Hv; simpl; [|done].
  destruct (skip_ws r1) as [|c r']; [done|].
  destruct (c =? "]")%char.
  { intros [= <- <-]. apply Forall_singleton. eauto. }
  destruct (c =? ",")%char; [|done].
  destruct (parse_elements pv n (skip_ws r')) as [[vs' r'']|] eqn:Hvs;
    simpl; [|done].
  intros [= <- <-]. apply Forall_cons. eauto.
Qed.

Lemma parse_members_Forall (P : pyval → Prop) pv n : ∀ s kvs r,
  (∀ s v r, pv s = Some (v, r) → P v) →
  parse_members pv n s = Some (kvs, r) → Forall (λ kv, P kv.2) kvs.
Proof.
  induction n as [|n IH]; intros s kvs r Hpv; [done|].
  unfold parse_members; fold parse_members.
  destruct s as [|q r0]; [done|].
  destruct (q =? dquote)%char; [|done].
  destruct (scan_string r0) as [[k r1]|] eqn:Hk; simpl; [|done].
  destruct (skip_ws r1) as [|c r2]; [done|].
  destruct (c =? ":")%char; [|done].
  destruct (pv (skip_ws r2)) as [[v r3]|] eqn:Hv; simpl; [|done].
  destruct (skip_ws r3) as [|c' r4]; [done|].
  destruct (c' =? "}")%char.
  { intros [= <- <-]. apply Forall_singleton. simpl. eauto. }
  destruct (c' =? ",")%char; [|done].
  destruct (parse_members pv n (skip_ws r4)) as [[kvs' r5]|] eqn:Hkvs;
    simpl; [|done].
  intros [= <- <-]. apply Forall_cons. simpl. eauto.
Qed.

Lemma dict_of_Forall (P : pyval → Prop) kvs :
  Forall (λ kv, P kv.2) kvs → map_Forall (λ _, P) (dict_of kvs).
Proof.
  unfold dict_of.
  assert (∀ acc : gmap string pyval, map_Forall (λ _, P) acc →
            Forall (λ kv, P kv.2) kvs →
            map_Forall (λ _, P) (foldl (λ acc kv, <[kv.1 := kv.2]> acc) acc kvs))
    as Hgen.
  { induction kvs as [|[k v] kvs IH]; intros acc Hacc Hkvs; simpl; [done|].
    apply Forall_cons in Hkvs as [Hv Hkvs]. apply IH; [|done].
    by apply map_Forall_insert_2. }
  apply Hgen, map_Forall_empty.
Qed.

Lemma fmap_fixed (f : pyval → pyval) (m : gmap string pyval) :
  map_Forall (λ _ v, f v = v) m → f <$> m = m.
Proof.
  intros Hm. apply map_eq. intros k. rewrite lookup_fmap.
  destruct (m !! k) as [v|] eqn:Hk; simpl; [|done].
  by rewrite (Hm k v Hk).
Qed.

Lemma list_fmap_fixed (f : pyval → pyval) (l : list pyval) :
  Forall (λ v, f v = v) l → f <$> l = l.
Proof. induction 1 as [|x l Hx _ IH]; simpl; [done|]. by f_equal. Qed.

Lemma parse_value_plain n : ∀ s v r,
  parse_value n s = Some (v, r) → to_plain v = v.
Proof.
  induction n as [|n IH]; intros s v r; [done|].
  destruct s as [|c r0]; [done|]. simpl.
  destruct (c =? dquote)%char.
  { destruct (scan_string r0) as [[x r']|]; simpl; [|done]. by intros [= <- <-]. }
  destruct (c =? "{")%char.
  { destruct (skip_ws r0) as [|c' r']; [done|].
    destruct (c' =? "}")%char.
    { intros [= <- <-]. simpl. by rewrite fmap_empty. }
    destruct (parse_members _ n _) as [[kvs r'']|] eqn:Hkvs; simpl; [|done].
    intros [= <- <-]. simpl. f_equal. apply fmap_fixed.
    apply (dict_of_Forall (λ v, to_plain v = v)).
    apply (parse_members_Forall (λ v, to_plain v = v) _ _ _ _ _ IH Hkvs). }
  destruct (c =? "[")%char.
  { destruct (skip_ws r0) as [|c' r']; [done|].
    destruct (c' =? "]")%char; [by intros [= <- <-]|].
    destruct (parse_elements _ n _) as [[vs r'']|] eqn:Hvs; simpl; [|done].
    intros [= <- <-]. simpl. f_equal. apply list_fmap_fixed.
    apply (parse_elements_Forall (λ v, to_plain v = v) _ _ _ _ _ IH Hvs). }
  destruct (strip_prefix "null" _); [by intros [= <- <-]|].
  destruct (strip_prefix "true" _); [by intros [= <- <-]|].
  destruct (strip_prefix "false" _); [by intros [= <- <-]|].
  destruct (scan_int _) as [[z r']|]; simpl; [|done]. by intros [= <- <-].
Qed.

(** ** The encoder *)

Lemma solid_app s t : solid s → solid (s +:+ t).
Proof. by destruct s. Qed.

Lemma skip_ws_solid s : solid s → skip_ws s = s.
Proof. destruct s as [|c s]; simpl; [done|]. by intros [-> _]. Qed.

Lemma digit_facts c :
  is_Some (digit_of c) →
  (c =? dquote)%char = false ∧ (c =? "{")%char = false ∧
  (c =? "[")%char = false ∧ ("n" =? c)%char = false ∧
  ("t" =? c)%char = false ∧ ("f" =? c)%char = false ∧
  is_ws c = false ∧ (c =? "]")%char = false ∧ (c =? "}")%char = false.
Proof.
  intros [f Hf]. destruct c as [[] [] [] [] [] [] [] []];
    vm_compute in Hf; try discriminate Hf; repeat split; reflexivity.
Qed.

(** The text of an integer starts with a minus sign or a digit. *)
Lemma str_int_head z :
  ∃ c s, str_int z = String c s ∧ (c = "-"%char ∨ is_Some (digit_of c)).
Proof.
  unfold str_int. destruct z as [|p|p]; simpl.
  - eexists _, _. split; [done|]. right. by eexists.
  - destruct (to_uint_head p) as (c & s & Hs & _ & Hc). eauto 6.
  - eexists _, _. split; [done|]. by left.
Qed.

Lemma parse_value_int n s z r :
  (∃ c s', s = String c s' ∧ (c = "-"%char ∨ is_Some (digit_of c))) →
  scan_int s = Some (z, r) → parse_value (S n) s = Some (PInt z, r).
Proof.
  intros (c & s' & -> & Hc) Hz. simpl.
  destruct Hc as [->|Hc].
  - rewrite !strip_prefix_cons. simpl. by rewrite Hz.
  - destruct (digit_facts c Hc) as (-> & -> & -> & Hn & Ht & Hf & _).
    rewrite !strip_prefix_cons, Hn, Ht, Hf, Hz. done.
Qed.

Lemma dumps_solid v : solid (dumps v).
Proof.
  destruct v as [|[]|z|s|l|l|c d]; try done.
  simpl. destruct (str_int_head z) as (c & s & -> & [->|Hc]); [done|].
  by destruct (digit_facts c Hc) as (_ & _ & _ & _ & _ & _ & ? & ? & ?).
Qed.

Lemma dumps_list l :
  dumps (PList l) = "[" +:+ join ", " (dumps <$> l) +:+ "]".
Proof. done. Qed.

Lemma dumps_tuple l :
  dumps (PTuple l) = "[" +:+ join ", " (dumps <$> l) +:+ "]".
Proof. done. Qed.

Lemma dumps_dict c d :
  dumps (PDict c d) = "{" +:+ join ", " (member_text <$> map_to_list d) +:+ "}".
Proof.
  simpl. rewrite map_fold_foldr. do 3 f_equal.
  induction (map_to_list d) as [|[k x] l IH]; simpl; [done|]. by rewrite IH.
Qed.

Lemma join_solid {A} (f : A → string) sep (l : list A) :
  l ≠ [] → (∀ x, solid (f x)) → solid (join sep (f <$> l)).
Proof.
  destruct l as [|x [|y l]]; [done| |]; intros _ Hf; simpl;
    [done|by apply solid_app].
Qed.

Lemma member_text_head kv r :
  member_text kv +:+ r =
    String dquote (escape kv.1 +:+ String dquote (String ":" (String " " (dumps kv.2 +:+ r)))).
Proof.
  unfold member_text, encode_str, quoted. simpl.
  rewrite !append_assoc. simpl. done.
Qed.

Local Arguments join : simpl never.
Local Arguments dumps : simpl never.
Local Arguments to_plain : simpl never.
Local Arguments skip_ws : simpl nomatch.

Lemma join_cons {A} (f : A → string) sep x y l :
  join sep (f <$> x :: y :: l) = f x +:+ sep +:+ join sep (f <$> y :: l).
Proof. done. Qed.

Lemma join_singleton {A} (f : A → string) sep x : join sep (f <$> [x]) = f x.
Proof. done. Qed.

(** The decoder reads back the elements that the encoder writes. *)
Lemma parse_elements_dumps pv : ∀ l k t,
  l ≠ [] → (length l ≤ k)%nat →
  Forall (λ x, ∀ t', no_digit_head t' →
                     pv (dumps x +:+ t') = Some (to_plain x, t')) l →
  parse_elements pv k (join ", " (dumps <$> l) +:+ String "]" t)
    = Some (to_plain <$> l, t).
Proof.
  induction l as [|x l IH]; intros k t Hne Hlen Hall; [done|].
  destruct k; [simpl in Hlen; lia|].
  apply Forall_cons in Hall as [Hx Hall].
  unfold parse_elements; fold parse_elements.
  destruct l as [|y l].
  - rewrite join_singleton, Hx by done. done.
  - rewrite join_cons, !append_assoc.
    assert (solid (join ", " (dumps <$> y :: l))) as HJ
      by (apply join_solid; [done|apply dumps_solid]).
    specialize (IH k t ltac:(done) ltac:(simpl in *; lia) Hall).
    set (J := join ", " (dumps <$> y :: l)) in *.
    rewrite Hx by done. simpl.
    rewrite skip_ws_solid by (by apply solid_app).
    by rewrite IH.
Qed.

Lemma parse_members_dumps pv : ∀ (l : list (string * pyval)) k t,
  l ≠ [] → (length l ≤ k)%nat →
  Forall (λ kv, ∀ t', no_digit_head t' →
                      pv (dumps kv.2 +:+ t') = Some (to_plain kv.2, t')) l →
  parse_members pv k (join ", " (member_text <$> l) +:+ String "}" t)
    = Some ((λ kv, (kv.1, to_plain kv.2)) <$> l, t).
Proof.
  induction l as [|x l IH]; intros k t Hne Hlen Hall; [done|].
  destruct k; [simpl in Hlen; lia|].
  apply Forall_cons in Hall as [Hx Hall].
  unfold parse_members; fold parse_members.
  destruct l as [|y l].
  - rewrite join_singleton, member_text_head.
    rewrite Ascii.eqb_refl, scan_string_escape. simpl.
    rewrite skip_ws_solid by apply solid_app, dumps_solid.
    rewrite Hx by done. done.
  - rewrite join_cons, append_assoc.
    assert (solid (join ", " (member_text <$> y :: l))) as HJ
      by (by apply join_solid).
    specialize (IH k t ltac:(done) ltac:(simpl in *; lia) Hall).
    set (J := join ", " (member_text <$> y :: l)) in *.
    rewrite member_text_head.
    rewrite Ascii.eqb_refl, scan_string_escape. simpl.
    rewrite skip_ws_solid by apply solid_app, dumps_solid.
    rewrite Hx by done. simpl.
    rewrite skip_ws_solid by (by apply solid_app).
    by rewrite IH.
Qed.

(** ** Sizes *)

Lemma size_v_pos v : (1 ≤ size_v v)%nat.
Proof. destruct v; simpl; lia. Qed.

Lemma size_list_elem (l : list pyval) x :
  x ∈ l → (size_v x ≤ foldr (λ x acc, size_v x + acc) 0 l)%nat.
Proof.
  induction 1 as [x l|x y l _ IH]; simpl; lia.
Qed.

Lemma size_list_length (l : list pyval) :
  (length l ≤ foldr (λ x acc, size_v x + acc) 0 l)%nat.
Proof.
  induction l as [|x l IH]; simpl; [done|]. pose proof (size_v_pos x). lia.
Qed.

Lemma size_dict c d :
  size_v (PDict c d) = S (foldr (λ x acc, size_v x + acc)%nat 0%nat (map_to_list d).*2).
Proof.
  simpl. rewrite map_fold_foldr. f_equal.
  induction (map_to_list d) as [|[k x] l IH]; simpl; [done|]. by rewrite IH.
Qed.

(** ** Dictionaries of pairs *)

Lemma dict_of_list_to_map (l : list (string * pyval)) :
  NoDup l.*1 → dict_of l = list_to_map l.
Proof.
  unfold dict_of. induction l as [|[k v] l IH] using rev_ind; [done|].
  rewrite fmap_app, NoDup_app. intros (Hl & Hk & _).
  rewrite foldl_app. simpl. rewrite IH by done.
  rewrite list_to_map_snoc; [done|].
  intros Hin. apply (Hk k Hin). simpl. apply list_elem_of_here.
Qed.

Lemma dict_of_to_list (d : gmap string pyval) :
  dict_of ((λ kv, (kv.1, to_plain kv.2)) <$> map_to_list d) = to_plain <$> d.
Proof.
  rewrite dict_of_list_to_map.
  - change (λ kv : string * pyval, (kv.1, to_plain kv.2))
      with (prod_map (@id string) to_plain).
    by rewrite list_to_map_fmap, list_to_map_to_list.
  - rewrite <- list_fmap_compose.
    rewrite (list_fmap_ext _ fst (map_to_list d)) by done.
    apply NoDup_fst_map_to_list.
Qed.

(** ** Lengths of joined texts *)

Lemma solid_length s : solid s → (1 ≤ String.length s)%nat.
Proof. destruct s; simpl; [done|lia]. Qed.

Lemma join_length_elem {A} (f : A → string) sep (l : list A) x :
  x ∈ l → (String.length (f x) ≤ String.length (join sep (f <$> l)))%nat.
Proof.
  induction 1 as [x l|x y l Hx IH].
  - destruct l as [|y l]; [done|]. rewrite join_cons, length_append. lia.
  - destruct l as [|z l]; [by apply elem_of_nil in Hx|].
    rewrite join_cons, !length_append. lia.
Qed.

Lemma join_length_count {A} (f : A → string) sep (l : list A) :
  (∀ x, solid (f x)) →
  (length l ≤ String.length (join sep (f <$> l)))%nat.
Proof.
  intros Hf. induction l as [|x l IH]; [simpl; lia|].
  pose proof (solid_length _ (Hf x)).
  destruct l as [|y l]; [rewrite join_singleton; simpl; lia|].
  rewrite join_cons, !length_append. simpl in *. lia.
Qed.

Lemma member_text_solid kv : solid (member_text kv).
Proof. done. Qed.

Lemma member_text_length kv :
  (String.length (dumps kv.2) ≤ String.length (member_text kv))%nat.
Proof. unfold member_text. rewrite !length_append. lia. Qed.

Lemma dumps_list_length l :
  String.length (dumps (PList l)) = S (S (String.length (join ", " (dumps <$> l)))).
Proof. rewrite dumps_list. simpl. rewrite length_append. simpl. lia. Qed.

Lemma dumps_dict_length c d :
  String.length (dumps (PDict c d)) =
    S (S (String.length (join ", " (member_text <$> map_to_list d)))).
Proof. rewrite dumps_dict. simpl. rewrite length_append. simpl. lia. Qed.

(** ** The decoder reads back what the encoder writes *)

Lemma parse_dumps_sequence n l t :
  (String.length (join ", " (dumps <$> l)) ≤ n)%nat →
  Forall (λ x, ∀ m t', (String.length (dumps x) ≤ m)%nat → no_digit_head t' →
                       parse_value m (dumps x +:+ t') = Some (to_plain x, t')) l →
  parse_value (S n) (("[" +:+ join ", " (dumps <$> l) +:+ "]") +:+ t)
    = Some (PList (to_plain <$> l), t).
Proof.
  intros Hn Hall. destruct l as [|x l]; [done|].
  assert (solid (join ", " (dumps <$> x :: l) +:+ String "]" t)) as Hsolid
    by (apply solid_app, join_solid; [done|apply dumps_solid]).
  pose proof (parse_elements_dumps (parse_value n) (x :: l) n t) as Hel.
  pose proof (join_length_count dumps ", " (x :: l) dumps_solid) as Hcount.
  pose proof (λ y, join_length_elem dumps ", " (x :: l) y) as Helem.
  set (J := join ", " (dumps <$> x :: l)) in *.
  rewrite !append_assoc. simpl.
  rewrite skip_ws_solid by done.
  destruct (J +:+ String "]" t) as [|c' r'] eqn:HJ; [done|].
  destruct Hsolid as (_ & -> & _).
  rewrite Hel; [done|done|lia|].
  rewrite Forall_forall in Hall. apply Forall_forall. intros y Hy t' Ht'.
  apply Hall; [done| |done]. specialize (Helem y Hy). lia.
Qed.

Lemma parse_dumps k : ∀ v n t,
  (size_v v ≤ k)%nat → (String.length (dumps v) ≤ n)%nat → no_digit_head t →
  parse_value n (dumps v +:+ t) = Some (to_plain v, t).
Proof.
  induction k as [|k IH]; intros v n t Hk Hn Ht.
  { pose proof (size_v_pos v). lia. }
  destruct n as [|n].
  { pose proof (solid_length _ (dumps_solid v)). lia. }
  destruct v as [|[]|z|s|l|l|c d]; try reflexivity.
  - apply parse_value_int.
    + change (dumps (PInt z)) with (str_int z).
      destruct (str_int_head z) as (c & s & -> & Hc). eauto.
    + by apply scan_int_str.
  - change (dumps (PStr s)) with (String dquote (escape s +:+ String dquote "")).
    simpl. rewrite append_assoc. simpl. by rewrite scan_string_escape.
  - rewrite dumps_list_length in Hn. rewrite dumps_list.
    apply parse_dumps_sequence; [lia|].
    apply Forall_forall. intros x Hx m t' Hm Ht'. apply IH; [|done|done].
    pose proof (size_list_elem l x Hx). simpl in Hk. lia.
  - change (dumps (PTuple l)) with (dumps (PList l)) in *.
    rewrite dumps_list_length in Hn. rewrite dumps_list.
    apply parse_dumps_sequence; [lia|].
    apply Forall_forall. intros x Hx m t' Hm Ht'. apply IH; [|done|done].
    pose proof (size_list_elem l x Hx). simpl in Hk. lia.
  - rewrite dumps_dict_length in Hn. rewrite dumps_dict, size_dict in *.
    change (to_plain (PDict c d)) with (PDict Dict (to_plain <$> d)).
    rewrite <- dict_of_to_list.
    destruct (map_to_list d) as [|kv l] eqn:Hl; [done|].
    assert (solid (join ", " (member_text <$> kv :: l) +:+ String "}" t)) as Hsolid
      by (by apply solid_app, join_solid).
    pose proof (parse_members_dumps (parse_value n) (kv :: l) n t) as Hmem.
    pose proof (join_length_count member_text ", " (kv :: l) member_text_solid)
      as Hcount.
    pose proof (λ y, join_length_elem member_text ", " (kv :: l) y) as Helem.
    set (J := join ", " (member_text <$> kv :: l)) in *.
    rewrite !append_assoc. simpl.
    rewrite skip_ws_solid by done.
    destruct (J +:+ String "}" t) as [|c' r'] eqn:HJ; [done|].
    destruct Hsolid as (_ & _ & ->).
    rewrite Hmem; [done|done|lia|].
    apply Forall_forall. intros y Hy t' Ht'. apply IH; [|  |done].
    + assert (y.2 ∈ (kv :: l).*2) as Hy2 by (by apply list_elem_of_fmap_2).
      pose proof (size_list_elem _ _ Hy2). lia.
    + specialize (Helem y Hy). pose proof (member_text_length y). lia.
Qed.

(** [json.loads(json.dumps(v))] is the document of [v]. *)
Lemma loads_dumps v : loads (dumps v) = Some (to_plain v).
Proof.
  unfold loads. rewrite skip_ws_solid by apply dumps_solid.
  rewrite <- (append_nil_r (dumps v)) at 2.
  rewrite (parse_dumps (size_v v)); [done|done|lia|done].
Qed.

(** ** The two paths of Feature.__str__ *)

Lemma drop_last_snoc x c : drop_last (x +:+ String c "") = x.
Proof.
  induction x as [|a x IH]; [done|].
  simpl. rewrite IH. by destruct x.
Qed.

Lemma slice_dumps_dict c d :
  slice_1_m1 (dumps (PDict c d)) = join ", " (member_text <$> map_to_list d).
Proof. rewrite dumps_dict. simpl. apply drop_last_snoc. Qed.

(** The other keys of a Feature: all but [geometry]. *)
Lemma filter_other_keys (d : gmap string pyval) :
  filter (λ kv : string * pyval, kv.1 ∈ (dom d ∖ {["geometry"]} : gset string)) d
  = delete "geometry" d.
Proof.
  apply map_eq. intros k. apply option_eq. intros v.
  rewrite map_lookup_filter_Some, lookup_delete_Some. simpl.
  rewrite elem_of_difference, elem_of_dom, not_elem_of_singleton.
  split.
  - intros [Hv [_ Hk]]. split; [congruence|done].
  - intros [Hk Hv]. split; [done|]. split; [by eexists|congruence].
Qed.

Lemma plain_keys (f : pyval → pyval) (l : list (string * pyval)) :
  ((λ kv, (kv.1, f kv.2)) <$> l).*1 = l.*1.
Proof. induction l as [|[k v] l IH]; simpl; [done|]. f_equal. exact IH. Qed.

Lemma dict_of_cons k v (l : list (string * pyval)) :
  k ∉ l.*1 → NoDup l.*1 → dict_of ((k, v) :: l) = <[k := v]> (dict_of l).
Proof.
  intros Hk Hl. rewrite !dict_of_list_to_map; [done|done|].
  simpl. by apply NoDup_cons.
Qed.

Lemma parse_members_spliced pv k g v r (l : list (string * pyval)) :
  l ≠ [] → (S (length l) ≤ k)%nat →
  skip_ws g ≠ "" → skip_ws r = "" →
  pv (skip_ws g +:+ String "," (String " " (join ", " (member_text <$> l) +:+ "}")))
    = Some (v, r +:+ String "," (String " " (join ", " (member_text <$> l) +:+ "}"))) →
  Forall (λ kv, ∀ t', no_digit_head t' →
                      pv (dumps kv.2 +:+ t') = Some (to_plain kv.2, t')) l →
  parse_members pv k
    (String dquote
       ("geometry" +:+
        String dquote
          (String ":" (String " "
             (g +:+ String "," (String " " (join ", " (member_text <$> l) +:+ "}")))))))
  = Some (("geometry", v) :: ((λ kv, (kv.1, to_plain kv.2)) <$> l), "").
Proof.
  intros Hl Hk Hg Hr Hpv Hall.
  destruct k as [|k]; [lia|].
  pose proof (parse_members_dumps pv l k "" Hl ltac:(lia) Hall) as Hmem.
  assert (solid (join ", " (member_text <$> l))) as HJ by (by apply join_solid).
  set (J := join ", " (member_text <$> l)) in *.
  change ("geometry" +:+ ?x) with (escape "geometry" +:+ x).
  unfold parse_members; fold parse_members.
  rewrite Ascii.eqb_refl, scan_string_escape. simpl.
  rewrite (skip_ws_nonblank g) by done. rewrite Hpv. simpl.
  rewrite (skip_ws_blank r) by done. simpl.
  rewrite skip_ws_solid by (by apply solid_app).
  change (J +:+ "}") with (J +:+ String "}" "").
  by rewrite Hmem.
Qed.

Lemma loads_spliced g G (others : gmap string pyval) :
  loads g = Some (PDict Dict G) →
  others ≠ ∅ → others !! "geometry" = None →
  loads (spliced g (slice_1_m1 (dumps (PDict Dict others))))
  = Some (PDict Dict (<["geometry" := PDict Dict G]> (to_plain <$> others))).
Proof.
  intros Hg Hne Hfree. rewrite slice_dumps_dict.
  unfold loads in Hg.
  destruct (parse_value _ (skip_ws g)) as [[v r]|] eqn:Hpg; simpl in Hg; [|done].
  destruct (skip_ws r) eqn:Hr; [|done]. simplify_eq.
  assert (skip_ws g ≠ "") as Hsolid.
  { intros Hblank. by rewrite Hblank in Hpg. }
  assert (map_to_list others ≠ []) as Hl.
  { intros Hl. by apply map_to_list_empty_iff in Hl. }
  pose proof (NoDup_fst_map_to_list others) as Hnodup.
  assert ("geometry" ∉ (map_to_list others).*1) as Hnotin.
  { intros ((k & x) & Hk & Hin)%list_elem_of_fmap. simpl in Hk. subst k.
    apply elem_of_map_to_list in Hin. congruence. }
  rewrite <- dict_of_to_list.
  rewrite <- (plain_keys to_plain) in Hnodup, Hnotin.
  rewrite <- dict_of_cons by done.
  pose proof (join_length_count member_text ", " (map_to_list others)
                member_text_solid) as Hcount.
  pose proof (λ y, join_length_elem member_text ", " (map_to_list others) y)
    as Helem.
  pose proof (λ pv k, parse_members_spliced pv k g (PDict Dict G) r
                        (map_to_list others)) as Hmem.
  set (J := join ", " (member_text <$> map_to_list others)) in *.
  assert (String.length (spliced g J)
          = (16 + String.length g + String.length J)%nat) as Hlen.
  { unfold spliced, quoted. rewrite !length_append. simpl. lia. }
  unfold loads.
  remember (String.length (spliced g J)) as N eqn:HN. clear HN.
  specialize (Hmem (parse_value N) N Hl ltac:(lia) Hsolid Hr).
  unfold spliced, quoted. simpl in Hmem. simpl.
  rewrite Hmem; [done| |].
  - apply parse_value_ext; [|by right].
    eapply parse_value_mono; [|exact Hpg]. lia.
  - apply Forall_forall. intros y Hy t' Ht'.
    apply (parse_dumps (size_v y.2)); [done| |done].
    specialize (Helem y Hy). pose proof (member_text_length y). lia.
Qed.

Lemma loads_nil : loads "" = None.
Proof. done. Qed.

(** The two paths on a dictionary that has a [type]. *)
Lemma Feature_str_paths_agree (self : gmap string pyval) g G :
  self !! "geometry" = Some (PStr g) →
  loads g = Some (PDict Dict G) →
  is_Some (self !! "type") →
  ∃ s1 s2 doc,
    Feature_str self = Ok s1 ∧
    Feature_str (<["geometry" := PDict Dict G]> self) = Ok s2 ∧
    loads s1 = Some doc ∧ loads s2 = Some doc.
Proof.
  intros Hgeom Hg [ty Hty].
  assert (g ≠ "") as Hgne by (intros ->; by rewrite loads_nil in Hg).
  assert (delete "geometry" self ≠ ∅) as Hne.
  { intros Hempty. assert (delete "geometry" self !! "type" = Some ty) as Hd
      by (by rewrite lookup_delete_ne). by rewrite Hempty in Hd. }
  assert (to_plain (PDict Dict G) = PDict Dict G) as Hplain.
  { unfold loads in Hg.
    destruct (parse_value _ (skip_ws g)) as [[v r]|] eqn:Hpg; simpl in Hg; [|done].
    destruct (skip_ws r); [|done]. simplify_eq. by eapply parse_value_plain. }
  assert (Feature_str self
          = Ok (spliced g (slice_1_m1 (dumps (PDict Dict (delete "geometry" self))))))
    as Hs1.
  { unfold Feature_str. rewrite Hgeom. simpl. unfold py_or. simpl.
    apply String.eqb_neq in Hgne. rewrite Hgne. simpl.
    by rewrite filter_other_keys. }
  assert (loads (spliced g (slice_1_m1 (dumps (PDict Dict (delete "geometry" self)))))
          = Some (PDict Dict (<["geometry" := PDict Dict G]> (to_plain <$> self))))
    as Hdoc1.
  { rewrite (loads_spliced g G) by (done || apply lookup_delete_eq).
    by rewrite fmap_delete, insert_delete_eq. }
  destruct (Nat.eqb (size G) 0) eqn:HG.
  - exists (spliced g (slice_1_m1 (dumps (PDict Dict (delete "geometry" self))))),
      (spliced "{}" (slice_1_m1 (dumps (PDict Dict (delete "geometry" self))))).
    eexists. split; [exact Hs1|]. split; [|split; [exact Hdoc1|]].
    + unfold Feature_str. rewrite lookup_insert_eq. simpl. unfold py_or. simpl.
      rewrite HG. simpl. rewrite filter_other_keys, delete_insert_eq. done.
    + apply Nat.eqb_eq, map_size_empty_iff in HG. subst G.
      rewrite (loads_spliced "{}" ∅) by (done || apply lookup_delete_eq).
      by rewrite fmap_delete, insert_delete_eq.
  - eexists _, _, _. split; [exact Hs1|]. split; [|split; [exact Hdoc1|]].
    + unfold Feature_str. rewrite lookup_insert_eq. simpl. unfold py_or. simpl.
      rewrite HG. simpl. done.
    + rewrite loads_dumps.
      change (to_plain (PDict FeatureClass ?m)) with (PDict Dict (to_plain <$> m)).
      by rewrite fmap_insert, Hplain.
Qed.

(** ** Features as constructed *)

Lemma dict_update_keeps self iterable kwargs self' k :
  dict_update self iterable kwargs = Ok self' →
  is_Some (self !! k) → is_Some (self' !! k).
Proof.
  unfold dict_update. intros Hup Hk.
  assert (∀ (kvs : list (string * pyval)) (acc : gmap string pyval),
            is_Some (acc !! k) →
            is_Some (foldl (λ acc kv, <[kv.1 := kv.2]> acc) acc kvs !! k)) as Hfold.
  { induction kvs as [|kv kvs IH]; intros acc Hacc; simpl; [done|].
    apply IH. rewrite lookup_insert_is_Some'. by right. }
  destruct iterable as [| | | | | |c d]; simpl in Hup;
    try (destruct (mapM key_value _) as [kvs|]; simpl in Hup);
    simplify_eq; rewrite lookup_union_is_Some; right;
    try (by apply Hfold); try done.
  rewrite lookup_union_is_Some. by right.
Qed.

(** A Feature that the constructor returns has a [type]. *)
Lemma Feature_init_type args self :
  Feature_init args = Ok (PDict FeatureClass self) → is_Some (self !! "type").
Proof.
  unfold Feature_init. destruct (bool_decide _); [done|].
  destruct (set_crs _ _) as [s|] eqn:Hcrs; simpl; [|done].
  destruct (dict_update _ _ _) as [s'|] eqn:Hup; simpl; [|done].
  intros [= <-]. eapply dict_update_keeps; [exact Hup|].
  unfold set_crs in Hcrs. destruct (truthy _).
  - destruct (NamedCRS_init _ _ _); simpl in Hcrs; [|done]. simplify_eq.
    rewrite lookup_insert_is_Some'. right. by eexists.
  - simplify_eq. by eexists.
Qed.

(** C4: for a Feature whose geometry is a string holding the JSON text of
    an object, [Feature.__str__] splices the string in, and the text it
    gives decodes to the same document as the text given for the same
    Feature with the decoded object for geometry. *)
Theorem serialized_geometry_agrees args (self : gmap string pyval) g G :
  Feature_init args = Ok (PDict FeatureClass self) →
  self !! "geometry" = Some (PStr g) →
  loads g = Some (PDict Dict G) →
  ∃ s1 s2 doc,
    Feature_str self = Ok s1 ∧
    Feature_str (<["geometry" := PDict Dict G]> self) = Ok s2 ∧
    loads s1 = Some doc ∧ loads s2 = Some doc.
Proof.
  intros Hinit Hgeom Hg.
  apply (Feature_str_paths_agree self g G Hgeom Hg).
  by eapply Feature_init_type.
Qed.

Lemma serialized_geometry_agrees_witness :
  ∃ s1 s2 doc,
    Feature_str stored_feature = Ok s1 ∧
    Feature_str (<["geometry" := point 1 2]> stored_feature) = Ok s2 ∧
    loads s1 = Some doc ∧ loads s2 = Some doc.
Proof.
  apply (serialized_geometry_agrees stored_args stored_feature point_text
           {[ "type" := PStr "Point"; "coordinates" := PList [PInt 1; PInt 2] ]});
    vm_compute; reflexivity.
Defined.

(** A string geometry with white space, and an empty object. *)
Example serialized_point :
  Feature_str stored_feature =
    Ok ("{" +:+ quoted "geometry" +:+ ": " +:+ point_text +:+ ", "
        +:+ quoted "id" +:+ ": 7, "
        +:+ quoted "type" +:+ ": " +:+ quoted "Feature" +:+ ", "
        +:+ quoted "properties" +:+ ": {" +:+ quoted "name" +:+ ": "
        +:+ quoted "a" +:+ "}}").
Proof. vm_compute. reflexivity. Qed.

End JsonSpec.

(** * Further properties of the map assembly *)

Section CartoMore.

Import Carto.

(** ** A new map *)

Lemma Map_init_settings load_map st :
  Map_init load_map = Ok st →
  buffer_size (mmap st) = 128%Z ∧ srs (mmap st) = "+init=epsg:3857".
Proof.
  unfold Map_init.
  destruct (load_map _) as [[m h]|[]]; simpl; try done; by intros [= <-].
Qed.

(** ** Layers *)

Lemma Map_layer_frame q sty st :
  ∃ l st', Map_layer q sty st = Ok (l, st') ∧
    layers (mmap st') = layers (mmap st) ++ [map_layer q sty] ∧
    extent (mmap st') = extent (mmap st) ∧
    srs (mmap st') = srs (mmap st) ∧
    buffer_size (mmap st') = buffer_size (mmap st).
Proof.
  unfold Map_layer, find_style.
  destruct q as [v|r]; simpl;
    (destruct (map_styles (mmap st) !! _) eqn:Hs; simpl;
     [|unfold append_style; simpl; rewrite Hs; simpl]);
    eexists _, _; (split; [reflexivity|]); done.
Qed.

(** X2: the layer that [Map.layer] returns is named after the table of
    a vector queryset, or after the raster store, has the resolved style
    name for its only style, and is a raster layer exactly for a queryset
    without [geojson]; it is appended after the layers of the map, whose
    extent, srs and buffer stay as they are. *)
Theorem Map_layer_appends q sty st l st' :
  Map_layer q sty st = Ok (l, st') →
  _layer l = map_layer q sty ∧
  name (_layer l) = layer_name q ∧
  stylename l = requested_style q sty ∧
  styles (_layer l) = [requested_style q sty] ∧
  is_raster l = negb (is_vector q) ∧
  layers (mmap st') = layers (mmap st) ++ [map_layer q sty] ∧
  extent (mmap st') = extent (mmap st) ∧
  srs (mmap st') = srs (mmap st) ∧
  buffer_size (mmap st') = buffer_size (mmap st).
Proof.
  unfold Map_layer, find_style.
  destruct q as [v|r]; simpl;
    (destruct (map_styles (mmap st) !! _) eqn:Hs; simpl;
     [|unfold append_style; simpl; rewrite Hs; simpl]);
    intros [= <- <-]; done.
Qed.

Lemma Map_layer_appends_witness :
  ∃ l st', Map_layer (QVector roads) (Some "lines") plain_state = Ok (l, st') ∧
           styles (_layer l) = ["lines"] ∧
           layers (mmap st') = [map_layer (QVector roads) (Some "lines")].
Proof.
  destruct (Map_layer (QVector roads) (Some "lines") plain_state)
    as [[l st']|e] eqn:Hrun; [|by vm_compute in Hrun].
  exists l, st'. split; [reflexivity|].
  destruct (Map_layer_appends (QVector roads) (Some "lines") plain_state l st' Hrun)
    as (_ & _ & _ & Hsty & _ & Hl & _).
  exact (conj Hsty Hl).
Defined.

Lemma add_colorizer_stops_frame colormap l lims st st' :
  add_colorizer_stops colormap l lims st = Ok st' → mmap st' = mmap st.
Proof.
  unfold add_colorizer_stops.
  destruct (cls l) as [|rs]; [done|].
  destruct (colormap !! stylename l) as [[|c cs]|]; try (by intros [= <-]).
  destruct (linear rs lims _) as [bins|]; simpl; [|done].
  by intros [Hmap _]%stop_loop_frame.
Qed.

Lemma build_layers_frame colormap qs sty lims : ∀ st st',
  build_layers colormap qs sty lims st = Ok st' →
  layers (mmap st') = layers (mmap st) ++ ((λ q, map_layer q sty) <$> qs) ∧
  extent (mmap st') = extent (mmap st) ∧
  srs (mmap st') = srs (mmap st) ∧
  buffer_size (mmap st') = buffer_size (mmap st).
Proof.
  induction qs as [|q qs IH]; intros st st'; simpl.
  - intros [= <-]. by rewrite app_nil_r.
  - destruct (Map_layer_frame q sty st) as (l & st1 & Hrun & Hl & He & Hs & Hb).
    rewrite Hrun. simpl.
    destruct (is_raster l).
    + destruct (add_colorizer_stops colormap l lims st1) as [st2|] eqn:Hst2;
        simpl; [|done].
      apply add_colorizer_stops_frame in Hst2.
      intros (-> & -> & -> & ->)%IH. rewrite Hst2, Hl, He, Hs, Hb.
      by rewrite <- app_assoc.
    + simpl. intros (-> & -> & -> & ->)%IH. rewrite Hl, He, Hs, Hb.
      by rewrite <- app_assoc.
Qed.

(** X3: a map that [build_map] returns has, after the layers of the map
    template, one layer for each queryset, in the order of the querysets,
    each with the style name of the form (or its default) for only style;
    its srs is web mercator and its buffer 128. *)
Theorem build_map_layers colormap load_map transform qs tileform st :
  build_map colormap load_map transform qs tileform = Ok st →
  ∃ st0, Map_init load_map = Ok st0 ∧
    layers (mmap st) =
      layers (mmap st0) ++ ((λ q, map_layer q (style (form_data tileform))) <$> qs) ∧
    srs (mmap st) = "+init=epsg:3857" ∧
    buffer_size (mmap st) = 128%Z.
Proof.
  unfold build_map.
  destruct (Map_init load_map) as [st0|] eqn:Hinit; simpl; [|done].
  intros (Hl & _ & Hs & Hb)%build_layers_frame.
  destruct (Map_init_settings load_map st0 Hinit) as (Hb0 & Hs0).
  exists st0. split; [done|]. rewrite Hl, Hs, Hb.
  destruct (bbox (form_data tileform)) as [[|g]|]; simpl; try done.
  by destruct (_ && _).
Qed.

Lemma build_map_layers_witness :
  ∃ st, build_map ∅ no_mapfile keep_srs [QVector roads; QRaster dem] bare_form = Ok st ∧
        layers (mmap st) = [map_layer (QVector roads) None; map_layer (QRaster dem) None].
Proof.
  destruct (build_map ∅ no_mapfile keep_srs [QVector roads; QRaster dem] bare_form)
    as [st|e] eqn:Hrun; [|by vm_compute in Hrun].
  exists st. split; [reflexivity|].
  destruct (build_map_layers ∅ no_mapfile keep_srs [QVector roads; QRaster dem]
              bare_form st Hrun) as (st0 & Hinit & Hl & _).
  injection Hinit as <-. exact Hl.
Defined.

Lemma Map_layer_vector v sty st :
  ∃ l st', Map_layer (QVector v) sty st = Ok (l, st') ∧ is_raster l = false ∧
           binning_calls st' = binning_calls st.
Proof.
  unfold Map_layer, find_style. simpl.
  destruct (map_styles (mmap st) !! _) eqn:Hs; simpl.
  - eexists _, _. split; [reflexivity|]. done.
  - eexists _, _. split; [reflexivity|]. split; [done|].
    unfold binning_calls. simpl. rewrite omap_app. simpl. by rewrite app_nil_r.
Qed.

(** X4: over vector querysets the loop of [build_map] asks no raster
    store for bins, and neither the colour ramps nor the limits of the
    form bear on it: with other ramps and other limits it returns the same
    state, or raises the same error. *)
Theorem build_layers_vectors colormap colormap' qs sty lims lims' st :
  forallb is_vector qs = true →
  build_layers colormap qs sty lims st = build_layers colormap' qs sty lims' st ∧
  ∀ st', build_layers colormap qs sty lims st = Ok st' →
         binning_calls st' = binning_calls st.
Proof.
  revert st. induction qs as [|[v|r] qs IH]; intros st Hqs; simpl in *;
    [split; [done|by intros st' [= <-]]| |done].
  destruct (Map_layer_vector v sty st) as (l & st1 & Hrun & Hr & Hb).
  rewrite Hrun. simpl. rewrite Hr. simpl.
  destruct (IH st1 Hqs) as [Heq Hcalls].
  split; [exact Heq|]. intros st' Hst'. rewrite <- Hb. by apply Hcalls.
Qed.

Lemma build_layers_vectors_witness :
  build_layers ramps [QVector roads] None (Some [0; 1]%Q) fresh_state
    = build_layers ∅ [QVector roads] None None fresh_state ∧
  ∀ st', build_layers ramps [QVector roads] None (Some [0; 1]%Q) fresh_state = Ok st' →
         binning_calls st' = binning_calls fresh_state.
Proof.
  apply (build_layers_vectors ramps ∅ [QVector roads] None (Some [0; 1]%Q) None
           fresh_state).
  reflexivity.
Defined.



(** ** Colour stops *)

Lemma stop_loop_heap_length symb pairs : ∀ st st',
  stop_loop symb pairs st = Ok st' → length (heap st') = length (heap st).
Proof.
  induction pairs as [|vc pairs IH]; intros st st'; simpl.
  - by intros [= <-].
  - destruct (stop_step symb st vc) as [st1|] eqn:Hstep; simpl; [|done].
    intros Hloop. rewrite (IH _ _ Hloop).
    unfold stop_step in Hstep. destruct symb as [p|]; [|done].
    destruct (heap st !! p) as [[| | |c]|]; simplify_eq. simpl.
    by rewrite length_insert.
Qed.

(** X6: when [add_colorizer_stops] returns on a raster layer whose style
    name has a colour ramp that is not empty, it has asked the raster for
    bins exactly once, with the limits as they were given and with
    [k = len(rcolors)]; the map is as it was, and no symbolizer was made
    or dropped. *)
Theorem add_colorizer_stops_requests_bins colormap l rstore lims st st' rcolors :
  cls l = RasterLayer rstore →
  colormap !! stylename l = Some rcolors → rcolors ≠ [] →
  add_colorizer_stops colormap l lims st = Ok st' →
  calls st' = calls st ++ [EvLinear (rs_str rstore) lims (length rcolors)] ∧
  mmap st' = mmap st ∧
  length (heap st') = length (heap st).
Proof.
  intros Hcls Hramp Hne. unfold add_colorizer_stops. rewrite Hcls, Hramp.
  destruct rcolors as [|c cs]; [done|].
  destruct (linear rstore lims _) as [bins|]; simpl; [|done].
  intros Hloop. destruct (stop_loop_frame _ _ _ _ Hloop) as [Hmap Hcalls].
  apply stop_loop_heap_length in Hloop. done.
Qed.

Lemma add_colorizer_stops_requests_bins_witness :
  ∃ st', add_colorizer_stops ramps dem_layer (Some [0; 100]%Q) dem_state = Ok st' ∧
         calls st' = [EvLinear "dem" (Some [0; 100]%Q) 3].
Proof.
  destruct (add_colorizer_stops ramps dem_layer (Some [0; 100]%Q) dem_state)
    as [st'|e] eqn:Hrun; [|by vm_compute in Hrun].
  exists st'. split; [reflexivity|].
  destruct (add_colorizer_stops_requests_bins ramps dem_layer dem (Some [0; 100]%Q)
              dem_state st' ["#5e4fa2"; "#ffffbf"; "#9e0142"] eq_refl eq_refl
              ltac:(discriminate) Hrun) as (Hcalls & _).
  exact Hcalls.
Defined.

(** X7: the stops reach the map.  When the style name of a raster is
    free, [Map.layer] registers a style whose one rule holds the very
    symbolizer of the layer, so that after [add_colorizer_stops] the style
    found in the map under that name shows the stops, one for each pair of
    [zip(bins, rcolors)]; the other symbolizers are as they were. *)
Theorem stops_reach_registered_style colormap rs sty lims st l st1 rcolors bins :
  map_styles (mmap st) !! requested_style (QRaster rs) sty = None →
  Map_layer (QRaster rs) sty st = Ok (l, st1) →
  colormap !! stylename l = Some rcolors →
  linear rs lims (length rcolors) = Ok bins →
  ∃ st2 p,
    add_colorizer_stops colormap l lims st1 = Ok st2 ∧
    _symbolizer l = Some p ∧
    find_style (mmap st2) (stylename l) = Ok {| rules := [ {| symbols := [p] |} ] |} ∧
    heap st2 !! p = Some (raster_symbolizer (new_stops bins rcolors)) ∧
    (∀ i, i ≠ p → heap st2 !! i = heap st !! i).
Proof.
  intros Hs Hrun Hramp Hbins.
  destruct (Map_layer_register (QRaster rs) sty st Hs)
    as (l0 & st0 & Hrun0 & Hn & Hsym & _ & Hst & (sym & Hheap & Hr) & _).
  rewrite Hrun in Hrun0. simplify_eq.
  destruct (Hr rs eq_refl) as [-> Hcls].
  destruct (add_colorizer_stops_built colormap l0 rs lims st0 (length (heap st))
              {| default_mode := COLORIZER_LINEAR;
                 default_color := ColorRGBA 0 0 0 0; stops := [] |}
              rcolors bins) as (st2 & Hrun2 & Hmap & Hheap2); try done.
  { rewrite Hheap. by apply list_lookup_middle. }
  exists st2, (length (heap st)). split; [done|]. split; [done|].
  split; [|split].
  - unfold find_style. rewrite Hmap, Hst, Hn, lookup_insert_eq. done.
  - rewrite Hheap2, Hheap. simpl.
    rewrite insert_app_r_alt by lia. rewrite Nat.sub_diag. simpl.
    by apply list_lookup_middle.
  - intros i Hi. rewrite Hheap2, Hheap.
    rewrite list_lookup_insert_ne by done.
    destruct (decide (i < length (heap st))%nat).
    + by rewrite lookup_app_l.
    + rewrite lookup_app_r by lia.
      rewrite (lookup_ge_None_2 (heap st)) by lia.
      destruct (i - length (heap st))%nat eqn:Hd; [lia|done].
Qed.

Lemma stops_reach_registered_style_witness :
  ∃ l st1 st2 p,
    Map_layer (QRaster dem) None fresh_state = Ok (l, st1) ∧
    add_colorizer_stops ramps l (Some [0; 100]%Q) st1 = Ok st2 ∧
    find_style (mmap st2) "Spectral_r" = Ok {| rules := [ {| symbols := [p] |} ] |} ∧
    heap st2 !! p = Some (raster_symbolizer
                            (new_stops [0; 50; 100]%Q ["#5e4fa2"; "#ffffbf"; "#9e0142"])).
Proof.
  eexists _, _.
  destruct (stops_reach_registered_style ramps dem None (Some [0; 100]%Q)
              fresh_state _ _ ["#5e4fa2"; "#ffffbf"; "#9e0142"] [0; 50; 100]%Q
              eq_refl eq_refl eq_refl eq_refl)
    as (st2 & p & H1 & _ & H3 & H4 & _).
  exists st2, p. split; [reflexivity|]. exact (conj H1 (conj H3 H4)).
Defined.

Lemma add_colorizer_stops_styles colormap l lims st st' :
  add_colorizer_stops colormap l lims st = Ok st' →
  map_styles (mmap st') = map_styles (mmap st).
Proof. by intros ->%add_colorizer_stops_frame. Qed.

(** X8: two rasters on one map.  When the resolved style name has a
    colour ramp that is not empty, and the rasters answer the request for
    bins, the second with at least one value, the loop of [build_map] over
    querysets that start with two rasters raises AttributeError, whatever
    the map holds: the second layer finds the style of the first in the
    registry, its symbolizer is never built, and attaching its first stop
    fails. *)
Theorem two_rasters_raise colormap r1 r2 rest sty lims st c cs bins1 b bins2 :
  colormap !! str_or sty "Spectral_r" = Some (c :: cs) →
  linear r1 lims (S (length cs)) = Ok bins1 →
  linear r2 lims (S (length cs)) = Ok (b :: bins2) →
  build_layers colormap (QRaster r1 :: QRaster r2 :: rest) sty lims st
    = Raise AttributeError.
Proof.
  intros Hramp Hb1 Hb2.
  assert (∀ st1, is_Some (map_styles (mmap st1) !! str_or sty "Spectral_r") →
            build_layers colormap (QRaster r2 :: rest) sty lims st1
              = Raise AttributeError) as Hsecond.
  { intros st1 [s Hs]. simpl.
    destruct (Map_layer_reuse (QRaster r2) sty st1 s Hs)
      as (l & st2 & Hrun & Hn & Hsym & _).
    rewrite Hrun. simpl.
    assert (cls l = RasterLayer r2) as Hcls.
    { unfold Map_layer, find_style in Hrun. simpl in *. rewrite Hs in Hrun.
      simpl in Hrun. by simplify_eq. }
    unfold is_raster, add_colorizer_stops. rewrite Hcls, Hn. simpl.
    rewrite Hramp. simpl. rewrite Hb2, Hsym. done. }
  cbn [build_layers].
  destruct (map_styles (mmap st) !! requested_style (QRaster r1) sty) as [s|] eqn:Hs.
  - destruct (Map_layer_reuse (QRaster r1) sty st s Hs)
      as (l & st1 & Hrun & Hn & Hsym & _ & Hst & _).
    rewrite Hrun. simpl.
    assert (cls l = RasterLayer r1) as Hcls.
    { unfold Map_layer, find_style in Hrun. simpl in *. rewrite Hs in Hrun.
      simpl in Hrun. by simplify_eq. }
    unfold is_raster. rewrite Hcls.
    destruct (add_colorizer_stops colormap l lims st1) as [st2|e] eqn:Hadd.
    + simpl. apply Hsecond.
      rewrite (add_colorizer_stops_styles _ _ _ _ _ Hadd), Hst. by eexists.
    + simpl. unfold add_colorizer_stops in Hadd. rewrite Hcls, Hn in Hadd.
      simpl in Hadd. rewrite Hramp in Hadd. simpl in Hadd.
      rewrite Hb1, Hsym in Hadd. simpl in Hadd.
      destruct bins1; simpl in Hadd; by simplify_eq.
  - destruct (Map_layer_register (QRaster r1) sty st Hs)
      as (l & st1 & Hrun & Hn & Hsym & _ & Hst & (sym & Hheap & Hr) & _).
    destruct (Hr r1 eq_refl) as [-> Hcls].
    rewrite Hrun. simpl. unfold is_raster. rewrite Hcls.
    destruct (add_colorizer_stops_built colormap l r1 lims st1 (length (heap st))
                {| default_mode := COLORIZER_LINEAR;
                   default_color := ColorRGBA 0 0 0 0; stops := [] |}
                (c :: cs) bins1) as (st2 & Hrun2 & Hmap & _); try done.
    { rewrite Hheap. by apply list_lookup_middle. }
    { by rewrite Hn. }
    rewrite Hrun2. simpl. apply Hsecond. rewrite Hmap, Hst.
    simpl. rewrite lookup_insert_eq. by eexists.
Qed.

Lemma two_rasters_raise_witness :
  build_layers ramps [QRaster dem; QRaster dem] None None fresh_state
    = Raise AttributeError.
Proof.
  apply (two_rasters_raise ramps dem dem [] None None fresh_state
           "#5e4fa2" ["#ffffbf"; "#9e0142"] [0; 100; 200]%Q 0%Q [100; 200]%Q);
    reflexivity.
Defined.

(** ** The extent *)

(** X9: with a valid form whose bbox is not empty and has an area, a map
    that [build_map] returns is zoomed to the extent of the bbox
    transformed to web mercator, the srs that [Map.__init__] sets,
    whatever the srs of the map template; the layers added afterwards
    leave the extent alone. *)
Theorem build_map_zooms colormap load_map transform qs tileform g st :
  is_valid tileform = true →
  bbox (cleaned_data tileform) = Some (BBoxGeom g) →
  usable g →
  build_map colormap load_map transform qs tileform = Ok st →
  extent (mmap st) = Some (geom_extent (transform g "+init=epsg:3857")).
Proof.
  intros Hvalid Hbbox [Hlen Harea]. unfold build_map, form_data.
  rewrite Hvalid, Hbbox.
  destruct (Map_init load_map) as [st0|] eqn:Hinit; simpl; [|done].
  destruct (Map_init_settings load_map st0 Hinit) as (_ & Hsrs).
  apply Nat.ltb_lt in Hlen. rewrite Hlen. simpl.
  assert (Qeq_bool (area g) 0 = false) as ->.
  { apply not_true_is_false. intros H. by apply Qeq_bool_iff in H. }
  simpl. intros (_ & -> & _)%build_layers_frame. simpl. by rewrite Hsrs.
Qed.

Lemma build_map_zooms_witness :
  ∃ st, build_map ramps no_mapfile keep_srs [QRaster dem] bbox_form = Ok st ∧
        extent (mmap st) = Some (0, 0, 1, 1)%Q.
Proof.
  eexists. split; [reflexivity|].
  apply (build_map_zooms ramps no_mapfile keep_srs [QRaster dem] bbox_form unit_bbox);
    try reflexivity.
  split; [simpl; lia|]. simpl. discriminate.
Defined.

(** ** The database source *)

Lemma setdefault_keeps k v (kwargs : gmap string string) :
  kwargs ⊆ setdefault k v kwargs.
Proof.
  unfold setdefault. destruct (kwargs !! k) eqn:Hk; [done|].
  by apply insert_subseteq.
Qed.

Lemma name_step_keeps settings kwargs md : kwargs ⊆ name_step settings kwargs md.
Proof.
  unfold name_step. destruct (settings !! md.2); [|done].
  destruct (negb _); [apply setdefault_keeps|done].
Qed.

Lemma name_loop_keeps settings l : ∀ kwargs,
  kwargs ⊆ foldl (name_step settings) kwargs l.
Proof.
  induction l as [|md l IH]; intros kwargs; simpl; [done|].
  etrans; [apply name_step_keeps|apply IH].
Qed.

(** X10: [make_dbsource] never overrides an option of its caller: every
    keyword argument that it is given reaches the datasource with the
    value that it was given. *)
Theorem make_dbsource_keeps_kwargs settings kwargs d :
  make_dbsource settings kwargs = Ok d → kwargs ⊆ options d.
Proof.
  unfold make_dbsource.
  destruct (settings !! "ENGINE") as [engine|]; [|done].
  destruct (bool_decide _).
  - destruct (settings !! "NAME") as [n|]; [|done].
    destruct (bool_decide _) eqn:Hw; [done|]. intros [= <-]. simpl.
    apply bool_decide_eq_false in Hw.
    etrans; [apply (setdefault_keeps "file" n)|].
    apply insert_subseteq. by apply eq_None_not_Some.
  - intros [= <-]. exact (name_loop_keeps settings names kwargs).
Qed.

Lemma make_dbsource_keeps_kwargs_witness :
  ({[ "table" := "roads"; "user" := "admin" ]} : gmap string string)
    ⊆ options (PostGIS {[ "table" := "roads"; "user" := "admin";
                          "dbname" := "gis"; "host" := "db" ]}).
Proof.
  apply (make_dbsource_keeps_kwargs postgis_settings
           {[ "table" := "roads"; "user" := "admin" ]}).
  vm_compute. reflexivity.
Defined.

Lemma name_step_from settings kwargs md k v :
  name_step settings kwargs md !! k = Some v →
  kwargs !! k = Some v ∨
  (k = md.1 ∧ settings !! md.2 = Some v ∧ v ≠ "" ∧ kwargs !! k = None).
Proof.
  unfold name_step. destruct (settings !! md.2) as [val|] eqn:Hval; [|by left].
  destruct (String.eqb val "") eqn:Hne; simpl; [by left|].
  unfold setdefault. destruct (kwargs !! md.1) eqn:Hk; [by left|].
  destruct (decide (md.1 = k)) as [<-|Hmk].
  - rewrite lookup_insert_eq. intros [= <-]. right.
    apply String.eqb_neq in Hne. done.
  - rewrite lookup_insert_ne by done. by left.
Qed.

Lemma name_loop_from settings l : ∀ kwargs k v,
  foldl (name_step settings) kwargs l !! k = Some v →
  kwargs !! k = Some v ∨
  (kwargs !! k = None ∧ ∃ dopt, (k, dopt) ∈ l ∧ settings !! dopt = Some v ∧ v ≠ "").
Proof.
  induction l as [|[m dopt] l IH]; intros kwargs k v; simpl; [by left|].
  intros [Hk|(Hnone & d & Hin & Hd & Hv)]%IH.
  - apply name_step_from in Hk as [Hk|(-> & Hs & Hv & Hnone)]; [by left|].
    right. split; [done|]. exists dopt. split; [left|done].
  - right. split.
    + destruct (kwargs !! k) eqn:Hkw; [|done].
      pose proof (name_step_keeps settings kwargs (m, dopt)) as Hsub.
      rewrite map_subseteq_spec in Hsub. apply Hsub in Hkw. congruence.
    + exists d. split; [by right|done].
Qed.

Lemma name_step_other settings kwargs md k :
  k ≠ md.1 → name_step settings kwargs md !! k = kwargs !! k.
Proof.
  intros Hk. unfold name_step. destruct (settings !! md.2); [|done].
  destruct (negb _); [|done]. unfold setdefault.
  destruct (kwargs !! md.1); [done|]. by rewrite lookup_insert_ne.
Qed.

Lemma name_loop_to settings l : ∀ kwargs k dopt v,
  NoDup l.*1 → kwargs !! k = None → (k, dopt) ∈ l →
  settings !! dopt = Some v → v ≠ "" →
  foldl (name_step settings) kwargs l !! k = Some v.
Proof.
  induction l as [|[m d0] l IH]; intros kwargs k dopt v Hnd Hnone Hin Hd Hv.
  { by apply elem_of_nil in Hin. }
  simpl in Hnd. apply NoDup_cons in Hnd as [Hm Hnd].
  apply elem_of_cons in Hin as [[= -> ->]|Hin]; simpl.
  - pose proof (name_loop_keeps settings l (name_step settings kwargs (m, d0))) as Hsub.
    rewrite map_subseteq_spec in Hsub. apply Hsub.
    unfold name_step, setdefault. simpl. rewrite Hd, Hnone.
    apply String.eqb_neq in Hv. rewrite Hv. simpl. apply lookup_insert_eq.
  - eapply IH; try done. rewrite name_step_other; [done|]. simpl.
    intros ->. apply Hm. apply list_elem_of_fmap. by exists (m, dopt).
Qed.

(** X11: on an engine that is not spatialite, [make_dbsource] asks for a
    PostGIS datasource whose options are exactly the keyword arguments of
    the caller and, for each of dbname, user, password, host and port
    that the caller left out, the setting of the connection it stands
    for, provided that the setting is there and is not empty. *)
Theorem make_dbsource_postgis settings kwargs engine :
  settings !! "ENGINE" = Some engine →
  String.index 0 "spatialite" engine = None →
  ∃ opts, make_dbsource settings kwargs = Ok (PostGIS opts) ∧
    ∀ k v, opts !! k = Some v ↔
      kwargs !! k = Some v ∨
      (kwargs !! k = None ∧
       ∃ dopt, (k, dopt) ∈ names ∧ settings !! dopt = Some v ∧ v ≠ "").
Proof.
  intros Hengine Hpg. unfold make_dbsource. rewrite Hengine, Hpg.
  rewrite bool_decide_eq_false_2 by (by intros [? ?]).
  eexists. split; [done|]. intros k v. split; [apply name_loop_from|].
  intros [Hk|(Hnone & dopt & Hin & Hd & Hv)].
  - pose proof (name_loop_keeps settings names kwargs) as Hsub.
    rewrite map_subseteq_spec in Hsub. by apply Hsub.
  - eapply name_loop_to; try done.
    apply (bool_decide_unpack _). vm_compute. exact I.
Qed.

Lemma make_dbsource_postgis_witness :
  ∃ opts, make_dbsource postgis_settings {[ "table" := "roads"; "user" := "admin" ]}
            = Ok (PostGIS opts) ∧
          opts !! "user" = Some "admin" ∧ opts !! "dbname" = Some "gis".
Proof.
  destruct (make_dbsource_postgis postgis_settings
              {[ "table" := "roads"; "user" := "admin" ]}
              "django.contrib.gis.db.backends.postgis" eq_refl eq_refl)
    as (opts & Hrun & Hopts).
  exists opts. split; [exact Hrun|]. split.
  - apply Hopts. left. reflexivity.
  - apply Hopts. right. split; [reflexivity|]. exists "NAME".
    split; [left|]. split; [reflexivity|discriminate].
Defined.

(** X12: on a spatialite engine, a datasource that [make_dbsource]
    returns is an SQLite one in the spatialite format, on the file that
    the caller names or else on the NAME of the connection, with the other
    keyword arguments as they were; the settings have a NAME, and the
    caller gave no [wkb_format]. *)
Theorem make_dbsource_spatialite settings kwargs engine d :
  settings !! "ENGINE" = Some engine →
  is_Some (String.index 0 "spatialite" engine) →
  make_dbsource settings kwargs = Ok d →
  ∃ n, settings !! "NAME" = Some n ∧
       kwargs !! "wkb_format" = None ∧
       d = SQLite (<["wkb_format" := "spatialite"]>
                     (<["file" := default n (kwargs !! "file")]> kwargs)).
Proof.
  intros Hengine Hsl. unfold make_dbsource. rewrite Hengine.
  rewrite bool_decide_eq_true_2 by done.
  destruct (settings !! "NAME") as [n|]; [|done].
  destruct (bool_decide _) eqn:Hw; [done|]. intros [= <-].
  apply bool_decide_eq_false in Hw. apply eq_None_not_Some in Hw.
  exists n. split; [done|]. unfold setdefault in *.
  destruct (kwargs !! "file") as [f|] eqn:Hf; simpl.
  - split; [done|]. by rewrite (insert_id kwargs "file" f).
  - rewrite lookup_insert_ne in Hw by done. done.
Qed.

Lemma make_dbsource_spatialite_witness :
  make_dbsource spatialite_settings {[ "table" := "roads" ]}
  = Ok (SQLite {[ "table" := "roads"; "file" := "/data/gis.db";
                  "wkb_format" := "spatialite" ]}).
Proof.
  destruct (make_dbsource spatialite_settings {[ "table" := "roads" ]})
    as [d|e] eqn:Hrun; [|by vm_compute in Hrun].
  destruct (make_dbsource_spatialite spatialite_settings {[ "table" := "roads" ]}
              "django.contrib.gis.db.backends.spatialite" d eq_refl
              ltac:(vm_compute; by eexists) Hrun) as (n & Hn & _ & ->).
  vm_compute in Hn. injection Hn as <-. vm_compute. reflexivity.
Defined.

End CartoMore.

(** * Further properties of the feature documents *)

Section CollectionsMore.

Import Collections.

(** ** What the constructors store *)

Lemma set_crs_keeps self crs self' k :
  set_crs self crs = Ok self' → is_Some (self !! k) → is_Some (self' !! k).
Proof.
  unfold set_crs. destruct (truthy crs); [|by intros [= <-]].
  destruct (NamedCRS_init _ _ _); simpl; [|done]. intros [= <-] Hk.
  rewrite lookup_insert_is_Some'. by right.
Qed.

(** X13: whatever its arguments, a value that the constructor of Feature
    returns is a Feature with the keys [type], [id], [geometry] and
    [properties]: neither the crs nor the entries merged last can take
    one away. *)
Theorem Feature_init_keys args y :
  Feature_init args = Ok y →
  ∃ self, y = PDict FeatureClass self ∧
    Forall (λ k, is_Some (self !! k)) ["type"; "id"; "geometry"; "properties"].
Proof.
  unfold Feature_init. destruct (bool_decide _); [done|].
  destruct (set_crs _ _) as [s|] eqn:Hcrs; simpl; [|done].
  destruct (dict_update _ _ _) as [s'|] eqn:Hup; simpl; [|done].
  intros [= <-]. exists s'. split; [done|].
  repeat apply Forall_cons_2; [..|apply Forall_nil_2];
    (eapply dict_update_keeps; [exact Hup|]);
    (eapply set_crs_keeps; [exact Hcrs|]);
    rewrite !lookup_insert_is_Some'; auto.
Qed.

Lemma Feature_init_keys_witness :
  ∃ self, PDict FeatureClass stored_feature = PDict FeatureClass self ∧
    Forall (λ k, is_Some (self !! k)) ["type"; "id"; "geometry"; "properties"].
Proof.
  apply (Feature_init_keys stored_args). vm_compute. reflexivity.
Defined.

(** X14: a value that the constructor of FeatureCollection returns is a
    FeatureCollection with the keys [type] and [features].  Unless an
    [iterable] is merged in, its [features] are: the empty list, when the
    value given is not true; the list or tuple given itself, when it
    starts with a Feature; and otherwise a list with one Feature for each
    element given, in order, each made by the constructor of Feature with
    the element for keyword arguments. *)
Theorem FeatureCollection_init_keys args y :
  FeatureCollection_init args = Ok y →
  ∃ self, y = PDict FeatureCollectionClass self ∧
    is_Some (self !! "type") ∧ is_Some (self !! "features") ∧
    (args !! "iterable" = None →
     (truthy (arg args "features" PNone) = false →
        self !! "features" = Some (PList [])) ∧
     (∀ x l, arg args "features" PNone = PList (x :: l)
             ∨ arg args "features" PNone = PTuple (x :: l) →
        (is_Feature x = true →
           self !! "features" = Some (arg args "features" PNone)) ∧
        (is_Feature x = false →
           ∃ fs, self !! "features" = Some (PList fs) ∧
                 Forall2 (λ e f, call_kwargs Feature_init e = Ok f
                                 ∧ is_Feature f = true) (x :: l) fs))).
Proof.
  unfold FeatureCollection_init. destruct (bool_decide _); [done|].
  destruct (set_crs _ _) as [s|] eqn:Hcrs; simpl; [|done].
  destruct (features_value _) as [fs|] eqn:Hfs; simpl; [|done].
  destruct (dict_update _ _ _) as [s'|] eqn:Hup; simpl; [|done].
  intros [= <-]. exists s'. split; [done|].
  split; [|split].
  - eapply dict_update_keeps; [exact Hup|].
    rewrite lookup_insert_is_Some'. right.
    eapply set_crs_keeps; [exact Hcrs|]. by rewrite lookup_insert_eq.
  - eapply dict_update_keeps; [exact Hup|]. by rewrite lookup_insert_eq.
  - intros Hit.
    assert (s' !! "features" = Some fs) as Hlook.
    { unfold arg in Hup. rewrite Hit in Hup. simpl in Hup.
      injection Hup as <-. rewrite lookup_union_r; [apply lookup_insert_eq|].
      unfold rest_args. simpl. apply lookup_delete_eq. }
    rewrite Hlook. unfold features_value in Hfs.
    set (v := arg args "features" PNone) in *. split.
    + intros Hfalse. rewrite Hfalse in Hfs. simpl in Hfs.
      unfold py_or in Hfs. rewrite Hfalse in Hfs. by simplify_eq.
    + intros x l Hv.
      assert (truthy v = true ∧ getitem0 v = Ok x ∧ iter v = Ok (x :: l))
        as (Htrue & Hfirst & Hiter) by (by destruct Hv as [-> | ->]).
      rewrite Htrue, Hfirst in Hfs. cbn [mbind result_bind] in Hfs. split.
      * intros Hx. rewrite Hx in Hfs. cbn [negb mbind result_bind] in Hfs.
        unfold py_or in Hfs. rewrite Htrue in Hfs. by simplify_eq.
      * intros Hx. rewrite Hx in Hfs. cbn [negb mbind result_bind] in Hfs.
        rewrite Hiter in Hfs. cbn [mbind result_bind] in Hfs.
        destruct (mapM (call_kwargs Feature_init) (x :: l)) as [fl|] eqn:Hfl;
          cbn [mbind result_bind] in Hfs; [|done].
        injection Hfs as <-. exists fl. split; [done|].
        destruct (mapM_result_Ok _ _ _ Hfl) as [Hlen Hnth].
        apply Forall2_same_length_lookup. split; [done|].
        intros i e f He Hf. destruct (Hnth i e He) as (f' & Hf' & Hrun).
        assert (f' = f) as -> by congruence. split; [done|].
        destruct e; simpl in Hrun; try done. by eapply Feature_init_class.
Qed.

Lemma FeatureCollection_init_keys_witness :
  ∃ self fs,
    FeatureCollection_init {[ "features" := PTuple raw_features; "crs" := PInt 4326 ]}
      = Ok (PDict FeatureCollectionClass self) ∧
    self !! "features" = Some (PList fs) ∧
    Forall2 (λ e f, call_kwargs Feature_init e = Ok f ∧ is_Feature f = true)
      raw_features fs.
Proof.
  destruct (FeatureCollection_init
              {[ "features" := PTuple raw_features; "crs" := PInt 4326 ]})
    as [y|e] eqn:Hrun; [|by vm_compute in Hrun].
  destruct (FeatureCollection_init_keys _ y Hrun) as (self & -> & _ & _ & Hfs).
  destruct (Hfs eq_refl) as [_ Hseq].
  destruct (Hseq (raw_feature 1 2 "a") [raw_feature 3 4 "b"] (or_intror eq_refl))
    as [_ Hraw].
  destruct (Hraw eq_refl) as (fs & Hlook & Hall).
  by exists self, fs.
Defined.

Lemma rest_args_lookup named (args : gmap string pyval) k :
  rest_args named args !! k = if bool_decide (k ∈ named) then None else args !! k.
Proof.
  unfold rest_args. induction named as [|n named IH]; cbn [foldr].
  - destruct (bool_decide (k ∈ [])) eqn:Hk; [|done].
    apply bool_decide_eq_true in Hk. by apply elem_of_nil in Hk.
  - destruct (decide (n = k)) as [->|Hn].
    + rewrite lookup_delete_eq. rewrite bool_decide_eq_true_2; [done|left].
    + rewrite lookup_delete_ne by done. rewrite IH.
      destruct (bool_decide (k ∈ named)) eqn:Hk.
      * apply bool_decide_eq_true in Hk.
        rewrite bool_decide_eq_true_2; [done|by right].
      * apply bool_decide_eq_false in Hk.
        rewrite bool_decide_eq_false_2; [done|].
        intros [?|?]%elem_of_cons; congruence.
Qed.

Lemma Feature_init_plain_value d :
  plain_kwargs d →
  Feature_init d =
    Ok (PDict FeatureClass
          (rest_args ["id"; "geometry"; "properties"; "crs"; "iterable"] d
           ∪ <["properties" := py_or (arg d "properties" PNone) (PDict Dict ∅)]>
               (<["geometry" := py_or (arg d "geometry" PNone) (PDict Dict ∅)]>
                  (<["id" := arg d "id" PNone]> (<["type" := PStr "Feature"]> ∅))))).
Proof.
  intros (Hself & Hcrs & Hit). unfold Feature_init, arg.
  rewrite Hself, Hcrs, Hit. reflexivity.
Qed.

(** X15: the entries of a Feature made of keyword arguments that are
    data.  Its [id] is the one given, or None; its [geometry] and its
    [properties] are the ones given when they are true, and an empty
    mapping otherwise; every other keyword is kept as it is; and its
    [type] is "Feature" only when the keywords have no [type] of their
    own. *)
Theorem Feature_init_entries d :
  plain_kwargs d →
  ∃ self, Feature_init d = Ok (PDict FeatureClass self) ∧
    self !! "type" = Some (arg d "type" (PStr "Feature")) ∧
    self !! "id" = Some (arg d "id" PNone) ∧
    self !! "geometry" = Some (py_or (arg d "geometry" PNone) (PDict Dict ∅)) ∧
    self !! "properties" = Some (py_or (arg d "properties" PNone) (PDict Dict ∅)) ∧
    ∀ k, k ∉ ["type"; "id"; "geometry"; "properties"] → self !! k = d !! k.
Proof.
  intros Hplain. rewrite (Feature_init_plain_value d Hplain).
  eexists. split; [done|].
  split; [|split; [|split; [|split]]].
  - rewrite lookup_union, rest_args_lookup.
    rewrite bool_decide_eq_false_2 by (by apply (bool_decide_unpack _)).
    rewrite !lookup_insert_ne by done. rewrite lookup_insert_eq.
    unfold arg. by destruct (d !! "type").
  - rewrite lookup_union, rest_args_lookup.
    rewrite bool_decide_eq_true_2 by (by apply (bool_decide_unpack _)).
    rewrite !lookup_insert_ne by done. by rewrite lookup_insert_eq.
  - rewrite lookup_union, rest_args_lookup.
    rewrite bool_decide_eq_true_2 by (by apply (bool_decide_unpack _)).
    rewrite !lookup_insert_ne by done. by rewrite lookup_insert_eq.
  - rewrite lookup_union, rest_args_lookup.
    rewrite bool_decide_eq_true_2 by (by apply (bool_decide_unpack _)).
    by rewrite lookup_insert_eq.
  - destruct Hplain as (Hself & Hcrs & Hit). intros k Hk.
    rewrite lookup_union, rest_args_lookup.
    rewrite !lookup_insert_ne, lookup_empty by set_solver.
    destruct (bool_decide _) eqn:Hin.
    + apply bool_decide_eq_true in Hin.
      repeat (apply elem_of_cons in Hin as [->|Hin]); try done; set_solver.
    + by destruct (d !! k).
Qed.

Lemma Feature_init_entries_witness :
  ∃ self,
    Feature_init {[ "type" := PStr "Station"; "geometry" := PNone;
                    "properties" := PDict Dict ∅; "name" := PStr "a" ]}
      = Ok (PDict FeatureClass self) ∧
    self !! "type" = Some (PStr "Station") ∧
    self !! "geometry" = Some (PDict Dict ∅) ∧
    self !! "name" = Some (PStr "a").
Proof.
  destruct (Feature_init_entries
              {[ "type" := PStr "Station"; "geometry" := PNone;
                 "properties" := PDict Dict ∅; "name" := PStr "a" ]})
    as (self & Hrun & Hty & _ & Hg & _ & Hk).
  { repeat split; reflexivity. }
  exists self. split; [exact Hrun|]. split; [exact Hty|]. split; [exact Hg|].
  rewrite Hk; [reflexivity|].
  apply (bool_decide_unpack _). vm_compute. exact I.
Defined.

(** ** Coordinate reference systems *)

Lemma NamedCRS_init_string s :
  s ≠ "" → NamedCRS_init (PStr s) (PTuple []) ∅ = Raise ValueError.
Proof.
  destruct s as [|c s]; [done|]. intros _. reflexivity.
Qed.

(** X16: a crs given as a string that is not empty makes both
    constructors raise ValueError: NamedCRS takes a srid that is no
    integer for the entries to merge, and the characters of a string are
    no pairs of a key and a value. *)
Theorem crs_string_raises args s :
  args !! "self" = None → args !! "crs" = Some (PStr s) → s ≠ "" →
  Feature_init args = Raise ValueError ∧
  FeatureCollection_init args = Raise ValueError.
Proof.
  intros Hself Hcrs Hs.
  assert (∀ self, set_crs self (PStr s) = Raise ValueError) as Hset.
  { intros self. unfold set_crs. simpl.
    apply String.eqb_neq in Hs. rewrite Hs. simpl.
    apply String.eqb_neq in Hs. by rewrite NamedCRS_init_string. }
  unfold Feature_init, FeatureCollection_init, arg.
  rewrite Hself, Hcrs. simpl. by rewrite !Hset.
Qed.

Lemma crs_string_raises_witness :
  Feature_init {[ "crs" := PStr "EPSG:4326" ]} = Raise ValueError ∧
  FeatureCollection_init {[ "crs" := PStr "EPSG:4326" ]} = Raise ValueError.
Proof.
  apply (crs_string_raises {[ "crs" := PStr "EPSG:4326" ]} "EPSG:4326");
    [reflexivity|reflexivity|discriminate].
Defined.

(** X17: a crs given as an integer.  Without an [iterable], a Feature
    made with the crs [n], an integer of at most 32 bits and so a plain
    [int] on every build, holds under [crs] the NamedCRS of the name
    [urn:ogc:def:crs:EPSG::n] when [n] is not zero, and has no [crs] at
    all when [n] is zero. *)
Theorem Feature_init_crs_int d n :
  d !! "self" = None → d !! "iterable" = None → d !! "crs" = Some (PInt n) →
  (- 2 ^ 31 ≤ n ≤ 2 ^ 31 - 1)%Z →
  ∃ self, Feature_init d = Ok (PDict FeatureClass self) ∧
          self !! "crs" = if (n =? 0)%Z then None else Some (named_crs n).
Proof.
  intros Hself Hit Hcrs Hn.
  assert (is_int (PInt n) = true) as Hint.
  { unfold is_int, maxint. apply andb_true_intro. split; apply Z.leb_le; lia. }
  assert (∀ self, set_crs self (PInt n) =
            Ok (if (n =? 0)%Z then self else <["crs" := named_crs n]> self)) as Hset.
  { intros self. unfold set_crs, named_crs. cbn [truthy].
    destruct (n =? 0)%Z; cbn [negb]; [done|].
    unfold NamedCRS_init. rewrite Hint. simpl.
    by rewrite (left_id_L ∅ (∪)). }
  unfold Feature_init, arg. rewrite Hself, Hit, Hcrs.
  change (default PNone (Some (PInt n))) with (PInt n). rewrite Hset.
  destruct (n =? 0)%Z.
  - eexists. split; [reflexivity|].
    rewrite lookup_union, rest_args_lookup.
    rewrite bool_decide_eq_true_2 by (by apply (bool_decide_unpack _)).
    cbn [foldl]. by rewrite !lookup_insert_ne by done.
  - eexists. split; [reflexivity|].
    rewrite lookup_union, rest_args_lookup.
    rewrite bool_decide_eq_true_2 by (by apply (bool_decide_unpack _)).
    cbn [foldl]. by rewrite lookup_insert_eq.
Qed.

Lemma Feature_init_crs_int_witness :
  ∃ self, Feature_init {[ "crs" := PInt 4326 ]} = Ok (PDict FeatureClass self) ∧
          self !! "crs" = Some (named_crs 4326).
Proof.
  apply (Feature_init_crs_int {[ "crs" := PInt 4326 ]} 4326);
    [reflexivity|reflexivity|reflexivity|lia].
Defined.

(** A crs beyond [sys.maxint] is a long integer: NamedCRS takes it for
    the entries to merge, and a number is no iterable. *)
Example long_crs_raises :
  Feature_init {[ "crs" := PInt (2 ^ 63) ]} = Raise TypeError.
Proof. vm_compute. reflexivity. Qed.

(** X18: NamedCRS and LinkedCRS of a mapping that has a [type] of its
    own hold the entries of the mapping and nothing else: the [type] of
    the class gives way to the one of the mapping.  So a Feature made
    with such a mapping for crs holds a NamedCRS with the entries of the
    mapping. *)
Theorem crs_copies_mapping c d :
  is_Some (d !! "type") →
  NamedCRS_init (PDict c d) (PTuple []) ∅ = Ok (PDict NamedCRSClass d) ∧
  LinkedCRS_init (PDict c d) (PTuple []) ∅ = Ok (PDict LinkedCRSClass d) ∧
  (truthy (PDict c d) = true →
   ∀ self, set_crs self (PDict c d) = Ok (<["crs" := PDict NamedCRSClass d]> self)).
Proof.
  intros [ty Hty].
  assert (∀ t, (∅ : gmap string pyval) ∪ (d ∪ <["type" := t]> ∅) = d) as Hd.
  { intros t. rewrite (left_id_L ∅ (∪)). apply map_eq. intros k.
    rewrite lookup_union. destruct (d !! k) eqn:Hk; simpl.
    - by destruct (<["type" := t]> (∅ : gmap string pyval) !! k).
    - destruct (decide (k = "type")) as [->|Hne]; [congruence|].
      by rewrite lookup_insert_ne, lookup_empty. }
  assert (NamedCRS_init (PDict c d) (PTuple []) ∅ = Ok (PDict NamedCRSClass d)) as HN.
  { unfold NamedCRS_init, dict_update, py_or.
    cbn [is_int truthy length Nat.eqb negb mbind result_bind]. by rewrite Hd. }
  split; [exact HN|]. split.
  - unfold LinkedCRS_init, dict_update, py_or.
    cbn [is_int truthy length Nat.eqb negb mbind result_bind]. by rewrite Hd.
  - intros Htrue self. unfold set_crs. rewrite Htrue, HN. done.
Qed.

Lemma crs_copies_mapping_witness :
  NamedCRS_init (PDict Dict {[ "type" := PStr "EPSG"; "properties" := PInt 4326 ]})
    (PTuple []) ∅
  = Ok (PDict NamedCRSClass {[ "type" := PStr "EPSG"; "properties" := PInt 4326 ]}).
Proof.
  apply (crs_copies_mapping Dict {[ "type" := PStr "EPSG"; "properties" := PInt 4326 ]}).
  by eexists.
Defined.

(** ** Coercion *)


Lemma dicts_no_string key l :
  Forall (λ x, is_dict x = true) l → existsb (λ x, is_str x key) l = false.
Proof.
  induction 1 as [|z l Hz _ IH]; simpl; [done|]. rewrite IH. by destruct z.
Qed.

(** X20: a list or tuple of mappings that starts with a Feature is
    wrapped as it is: [as_feature] returns the FeatureCollection whose
    [features] is the sequence itself, and the elements after the first
    are not made into Features, whatever they are. *)
Theorem as_feature_keeps_features x l :
  is_Feature x = true → Forall (λ y, is_dict y = true) l →
  as_feature (PList (x :: l)) = Ok (collection_of (PList (x :: l))) ∧
  as_feature (PTuple (x :: l)) = Ok (collection_of (PTuple (x :: l))).
Proof.
  intros Hx Hl. destruct x as [| | | | | |[] d]; try done.
  unfold as_feature, is_featurelike, has_features. simpl.
  rewrite !(dicts_no_string _ l) by done.
  simpl. by rewrite !FeatureCollection_init_features.
Qed.

Lemma as_feature_keeps_features_witness :
  as_feature (PList [PDict FeatureClass stored_feature; raw_feature 1 2 "a"])
    = Ok (collection_of (PList [PDict FeatureClass stored_feature; raw_feature 1 2 "a"])) ∧
  as_feature (PTuple [PDict FeatureClass stored_feature; raw_feature 1 2 "a"])
    = Ok (collection_of (PTuple [PDict FeatureClass stored_feature; raw_feature 1 2 "a"])).
Proof.
  apply (as_feature_keeps_features (PDict FeatureClass stored_feature)
           [raw_feature 1 2 "a"]); [reflexivity|].
  repeat constructor.
Defined.

End CollectionsMore.

(** * Further properties of the serialization *)

Section JsonMore.

Import Collections.

Local Arguments String.append !_ _ / : simpl nomatch.
Local Arguments scan_nat : simpl never.
Local Arguments scan_int : simpl never.
Local Arguments scan_string : simpl never.
Local Arguments parse_elements : simpl never.
Local Arguments parse_members : simpl never.
Local Arguments strip_prefix : simpl never.
Local Arguments join : simpl never.
Local Arguments dumps : simpl never.
Local Arguments to_plain : simpl never.
Local Arguments skip_ws : simpl nomatch.

Lemma loads_reads T v n :
  solid T → loads T = Some v → (String.length T < n)%nat →
  reads (parse_value n) T v.
Proof.
  intros HT Hl Hn. split; [done|]. unfold loads in Hl.
  rewrite skip_ws_solid in Hl by done.
  destruct (parse_value _ T) as [[v' r]|] eqn:Hp; simpl in Hl; [|done].
  destruct (skip_ws r) eqn:Hr; [|done]. simplify_eq.
  exists r. split; [done|]. intros t Ht.
  apply parse_value_ext; [|by right].
  eapply parse_value_mono; [|exact Hp]. lia.
Qed.

Lemma join_cons' sep (x y : string) l :
  join sep (x :: y :: l) = x +:+ sep +:+ join sep (y :: l).
Proof. done. Qed.

Lemma join_solid' sep (l : list string) :
  l ≠ [] → Forall solid l → solid (join sep l).
Proof.
  destruct l as [|x [|y l]]; [done| |]; intros _ [Hx _]%Forall_cons;
    [done|]. rewrite join_cons'. by apply solid_app.
Qed.

(** The elements of an array whose texts are joined without white
    space. *)
Lemma parse_elements_texts pv Ts vs :
  Forall2 (reads pv) Ts vs → ∀ k t, Ts ≠ [] → (length Ts ≤ k)%nat →
  parse_elements pv k (join "," Ts +:+ String "]" t) = Some (vs, t).
Proof.
  induction 1 as [|T v Ts vs (HT & r & Hr & Hx) Hall IH]; intros k t Hne Hlen;
    [done|].
  destruct k; [simpl in Hlen; lia|].
  unfold parse_elements; fold parse_elements.
  destruct Ts as [|T' Ts].
  - apply Forall2_nil_inv_l in Hall as ->.
    change (join "," [T]) with T. rewrite Hx by done. simpl.
    rewrite (skip_ws_blank r) by done. simpl. done.
  - rewrite join_cons', !append_assoc.
    assert (solid (join "," (T' :: Ts))) as HJ.
    { apply join_solid'; [done|].
      apply Forall2_Forall_l with (Q := solid) in Hall; [done|].
      apply Forall_forall. by intros ? _ ? [? _]. }
    specialize (IH k t ltac:(done) ltac:(simpl in *; lia)).
    set (J := join "," (T' :: Ts)) in *.
    simpl. rewrite Hx by done. simpl.
    rewrite (skip_ws_blank r) by done. simpl.
    rewrite skip_ws_solid by (by apply solid_app).
    by rewrite IH.
Qed.

Lemma parse_value_array n Ts vs t :
  Forall2 (reads (parse_value n)) Ts vs → (length Ts ≤ n)%nat →
  parse_value (S n) (String "[" (join "," Ts +:+ String "]" t)) = Some (PList vs, t).
Proof.
  intros Hall Hlen. destruct Ts as [|T Ts].
  { apply Forall2_nil_inv_l in Hall as ->. done. }
  assert (solid (join "," (T :: Ts) +:+ String "]" t)) as Hsolid.
  { apply solid_app, join_solid'; [done|].
    apply Forall2_Forall_l with (Q := solid) in Hall; [done|].
    apply Forall_forall. by intros ? _ ? [? _]. }
  pose proof (parse_elements_texts _ _ _ Hall n t ltac:(done) Hlen) as Hel.
  set (J := join "," (T :: Ts)) in *.
  simpl. rewrite skip_ws_solid by done.
  destruct (J +:+ String "]" t) as [|c' r'] eqn:HJ; [done|].
  destruct Hsolid as (_ & -> & _). by rewrite Hel.
Qed.

(** The last member of the text of a collection. *)
Lemma parse_members_features pv k E V :
  pv (String "[" E) = Some (V, "}") →
  parse_members pv (S k)
    (String dquote
       ("features" +:+ String dquote (String ":" (String " " (String "[" E)))))
  = Some ([("features", V)], "").
Proof.
  intros Hpv.
  change ("features" +:+ ?x) with (escape "features" +:+ x).
  unfold parse_members.
  rewrite Ascii.eqb_refl, scan_string_escape. simpl.
  by rewrite Hpv.
Qed.

(** Members written by the encoder, followed by further members. *)
Lemma parse_members_then pv rest kvs r k0 : ∀ (l : list (string * pyval)),
  l ≠ [] → solid rest →
  Forall (λ kv, ∀ t', no_digit_head t' →
                      pv (dumps kv.2 +:+ t') = Some (to_plain kv.2, t')) l →
  parse_members pv k0 rest = Some (kvs, r) →
  parse_members pv (length l + k0)
    (join ", " (member_text <$> l) +:+ String "," (String " " rest))
  = Some (((λ kv, (kv.1, to_plain kv.2)) <$> l) ++ kvs, r).
Proof.
  induction l as [|x l IH]; intros Hne Hrest Hall Hk0; [done|].
  apply Forall_cons in Hall as [Hx Hall].
  change (length (x :: l) + k0)%nat with (S (length l + k0)).
  unfold parse_members; fold parse_members.
  destruct l as [|y l].
  - rewrite join_singleton, member_text_head.
    rewrite Ascii.eqb_refl, scan_string_escape. simpl.
    rewrite skip_ws_solid by apply solid_app, dumps_solid.
    rewrite Hx by done. simpl.
    rewrite skip_ws_solid by done. by rewrite Hk0.
  - rewrite join_cons, append_assoc.
    assert (solid (join ", " (member_text <$> y :: l))) as HJ
      by (by apply join_solid).
    specialize (IH ltac:(done) Hrest Hall Hk0).
    cbn [length Nat.add] in IH.
    set (J := join ", " (member_text <$> y :: l)) in *.
    rewrite member_text_head.
    rewrite Ascii.eqb_refl, scan_string_escape. simpl.
    rewrite skip_ws_solid by apply solid_app, dumps_solid.
    rewrite Hx by done. simpl.
    rewrite skip_ws_solid by (by apply solid_app).
    by rewrite IH.
Qed.

Lemma join_length_elem' sep (l : list string) x :
  x ∈ l → (String.length x ≤ String.length (join sep l))%nat.
Proof.
  induction 1 as [x l|x y l Hx IH].
  - destruct l as [|y l]; [done|]. rewrite join_cons', length_append. lia.
  - destruct l as [|z l]; [by apply elem_of_nil in Hx|].
    rewrite join_cons', !length_append. lia.
Qed.

Lemma join_length_count' sep (l : list string) :
  Forall solid l → (length l ≤ String.length (join sep l))%nat.
Proof.
  induction 1 as [|x l Hx _ IH]; [simpl; lia|].
  pose proof (solid_length _ Hx).
  destruct l as [|y l]; [change (join sep [x]) with x; simpl; lia|].
  rewrite join_cons', !length_append. simpl in *. lia.
Qed.

Lemma filter_others k (d : gmap string pyval) :
  filter (λ kv : string * pyval, kv.1 ∈ (dom d ∖ {[k]} : gset string)) d
  = delete k d.
Proof.
  apply map_eq. intros k'. apply option_eq. intros v.
  rewrite map_lookup_filter_Some, lookup_delete_Some. simpl.
  rewrite elem_of_difference, elem_of_dom, not_elem_of_singleton.
  split.
  - intros [Hv [_ Hk]]. split; [congruence|done].
  - intros [Hk Hv]. split; [done|]. split; [by eexists|congruence].
Qed.

Lemma dict_of_snoc (l : list (string * pyval)) k v :
  dict_of (l ++ [(k, v)]) = <[k := v]> (dict_of l).
Proof. unfold dict_of. by rewrite foldl_app. Qed.

(** The text of a collection: the other members as the encoder writes
    them, then the features, each as its own text. *)
Lemma loads_collection (others : gmap string pyval) Ts vs :
  others ≠ ∅ →
  Forall2 (λ T v, solid T ∧ loads T = Some v) Ts vs →
  loads (drop_last (dumps (PDict Dict others)) +:+ ", " +:+ quoted "features"
           +:+ ": [" +:+ join "," Ts +:+ "]}")
  = Some (PDict Dict (<["features" := PList vs]> (to_plain <$> others))).
Proof.
  intros Hne Hall.
  assert (map_to_list others ≠ []) as Hl.
  { intros Hl. by apply map_to_list_empty_iff in Hl. }
  assert (Forall solid Ts) as Hsolid.
  { apply Forall2_Forall_l with (Q := solid) in Hall; [done|].
    apply Forall_forall. by intros ? _ ? [? _]. }
  rewrite dumps_dict, <- (append_assoc "{"), drop_last_snoc.
  rewrite <- dict_of_to_list, <- dict_of_snoc.
  pose proof (join_length_count member_text ", " (map_to_list others)
                member_text_solid) as Hcount.
  pose proof (λ y, join_length_elem member_text ", " (map_to_list others) y)
    as Helem.
  pose proof (join_length_count' "," Ts Hsolid) as HcountT.
  pose proof (λ T, join_length_elem' "," Ts T) as HelemT.
  pose proof (λ pv rest kvs r k0, parse_members_then pv rest kvs r k0
                                    (map_to_list others) Hl) as Hmem.
  pose proof (λ pv k, parse_members_features pv k (join "," Ts +:+ String "]" "}")
                        (PList vs)) as Hfeat.
  pose proof (λ n, parse_value_array n Ts vs "}") as Harr.
  assert (solid (join ", " (member_text <$> map_to_list others))) as HJ
    by (by apply join_solid).
  set (J := join ", " (member_text <$> map_to_list others)) in *.
  set (E := join "," Ts) in *.
  set (F := String dquote
              ("features" +:+
               String dquote (String ":" (String " " (String "[" (E +:+ String "]" "}")))))).
  assert (solid F) as HF by done.
  set (text := ("{" +:+ J) +:+ ", " +:+ quoted "features" +:+ ": [" +:+ E +:+ "]}").
  assert (text = String "{" (J +:+ String "," (String " " F))) as Htext.
  { unfold text, F, quoted. rewrite !append_assoc. simpl. done. }
  assert (String.length text
          = (18 + String.length J + String.length E)%nat) as Hlen.
  { rewrite Htext. unfold F. simpl. rewrite !length_append. simpl.
    rewrite !length_append. simpl. lia. }
  unfold loads. rewrite Htext in *.
  remember (String.length (String "{" (J +:+ String "," (String " " F)))) as N eqn:HN.
  clear HN.
  assert (parse_value N (String "[" (E +:+ String "]" "}")) = Some (PList vs, "}"))
    as Helems.
  { destruct N as [|N']; [lia|].
    apply Harr; [|lia]. apply Forall2_same_length_lookup.
    split; [by eapply Forall2_length|]. intros i T v HT Hv.
    destruct (Forall2_lookup_lr _ _ _ _ _ _ Hall HT Hv) as [HsT HlT].
    apply loads_reads; [done|done|].
    specialize (HelemT T (list_elem_of_lookup_2 _ _ _ HT)). lia. }
  specialize (Hfeat (parse_value N) (N - S (length (map_to_list others)))%nat Helems).
  fold F in Hfeat.
  assert (Forall (λ kv : string * pyval, ∀ t', no_digit_head t' →
                    parse_value N (dumps kv.2 +:+ t') = Some (to_plain kv.2, t'))
            (map_to_list others)) as Hothers.
  { apply Forall_forall. intros y Hy t' Ht'.
    apply (parse_dumps (size_v y.2)); [done| |done].
    specialize (Helem y Hy). pose proof (member_text_length y). lia. }
  specialize (Hmem (parse_value N) F _ _ _ HF Hothers Hfeat).
  replace (length (map_to_list others) + S (N - S (length (map_to_list others))))%nat
    with N in Hmem by lia.
  simpl. rewrite skip_ws_solid by (by apply solid_app).
  destruct (J +:+ String "," (String " " F)) as [|c' r'] eqn:HJF.
  { by destruct J. }
  assert ((c' =? "}")%char = false) as ->.
  { destruct J as [|c0 J0]; [done|]. simpl in HJF. injection HJF as <- _.
    by destruct HJ as (_ & _ & ?). }
  rewrite Hmem. done.
Qed.

Lemma to_plain_empty c : to_plain (PDict c ∅) = PDict Dict ∅.
Proof. change (to_plain (PDict c ∅)) with (PDict Dict (to_plain <$> ∅)). by rewrite fmap_empty. Qed.

(** The text of a Feature whose geometry is a mapping that is not
    empty. *)
Lemma Feature_text_dumped (self : gmap string pyval) g :
  self !! "geometry" = Some g → truthy g = true → is_dict g = true →
  Feature_str self = Ok (dumps (PDict FeatureClass self)).
Proof.
  intros Hgeom Htrue Hd. unfold Feature_str, py_or. rewrite Hgeom. simpl.
  by rewrite Htrue, Hd.
Qed.

(** The text of a Feature whose geometry is not true, and what it
    decodes to. *)
Lemma Feature_text_spliced (self : gmap string pyval) g :
  self !! "geometry" = Some g → truthy g = false → is_Some (self !! "type") →
  ∃ s, Feature_str self = Ok s ∧ solid s ∧
       loads s = Some (PDict Dict (<["geometry" := PDict Dict ∅]> (to_plain <$> self))).
Proof.
  intros Hgeom Hfalse [ty Hty]. unfold Feature_str, py_or. rewrite Hgeom. simpl.
  rewrite Hfalse. simpl. rewrite filter_other_keys.
  exists (spliced "{}" (slice_1_m1 (dumps (PDict Dict (delete "geometry" self))))).
  split; [done|]. split; [done|].
  assert (delete "geometry" self ≠ ∅) as Hne.
  { intros Hempty. assert (delete "geometry" self !! "type" = Some ty) as Hd
      by (by rewrite lookup_delete_ne). by rewrite Hempty in Hd. }
  rewrite (loads_spliced "{}" ∅ (delete "geometry" self) eq_refl Hne
             (lookup_delete_eq _ _)).
  by rewrite fmap_delete, insert_delete_eq.
Qed.

Lemma structured_text f :
  structured f →
  ∃ s, py_str f = Ok s ∧ solid s ∧ loads s = Some (to_plain f).
Proof.
  intros (d & g & -> & Hg & Hd & Hty). cbn [py_str].
  destruct (truthy g) eqn:Htrue.
  - exists (dumps (PDict FeatureClass d)).
    split; [by apply (Feature_text_dumped d g)|].
    split; [apply dumps_solid|apply loads_dumps].
  - destruct (Feature_text_spliced d g Hg Htrue Hty) as (s & Hs & Hsolid & Hl).
    exists s. split; [done|]. split; [done|]. rewrite Hl. f_equal.
    change (to_plain (PDict FeatureClass d)) with (PDict Dict (to_plain <$> d)).
    f_equal. apply insert_id. rewrite lookup_fmap, Hg. simpl. f_equal.
    destruct g as [| | | | | |c G]; try done. simpl in Htrue.
    apply negb_false_iff, Nat.eqb_eq, map_size_empty_iff in Htrue. subst G.
    by rewrite to_plain_empty.
Qed.

Lemma structured_texts fs :
  Forall structured fs →
  ∃ Ts, mapM py_str fs = Ok Ts ∧
        Forall2 (λ T v, solid T ∧ loads T = Some v) Ts (to_plain <$> fs).
Proof.
  induction 1 as [|f fs Hf _ (Ts & HTs & Hall)]; [by exists []|].
  destruct (structured_text f Hf) as (s & Hs & Hsolid & Hl).
  exists (s :: Ts). split.
  - cbn [mapM]. rewrite Hs. simpl. rewrite HTs. done.
  - by constructor.
Qed.

(** The text of a FeatureCollection, given the texts of its features. *)
Lemma FeatureCollection_text (self : gmap string pyval) v fs Ts :
  self !! "features" = Some v → iter v = Ok fs → mapM py_str fs = Ok Ts →
  FeatureCollection_str self =
    Ok (drop_last (dumps (PDict Dict (delete "features" self))) +:+ ", "
          +:+ quoted "features" +:+ ": [" +:+ join "," Ts +:+ "]}").
Proof.
  intros Hfs Hiter HTs. unfold FeatureCollection_str. rewrite Hfs.
  cbn [mbind result_bind]. rewrite Hiter. cbn [mbind result_bind].
  rewrite HTs. cbn [mbind result_bind].
  by rewrite filter_others, !append_assoc.
Qed.

(** The document of a collection, its features apart. *)
Lemma collection_document (self : gmap string pyval) v fs :
  self !! "features" = Some v → v = PList fs ∨ v = PTuple fs →
  PDict Dict (<["features" := PList (to_plain <$> fs)]>
                (to_plain <$> delete "features" self))
  = to_plain (PDict FeatureCollectionClass self).
Proof.
  intros Hfs Hv.
  change (to_plain (PDict FeatureCollectionClass self))
    with (PDict Dict (to_plain <$> self)).
  rewrite fmap_delete, insert_delete_eq. f_equal.
  apply insert_id. rewrite lookup_fmap, Hfs. simpl.
  by destruct Hv as [-> | ->].
Qed.

Lemma other_keys k k' (self : gmap string pyval) :
  k ≠ k' → is_Some (self !! k') → delete k self ≠ ∅.
Proof.
  intros Hk [x Hx] Hempty.
  assert (delete k self !! k' = Some x) as Hd by (by rewrite lookup_delete_ne).
  by rewrite Hempty in Hd.
Qed.

(** X21: the text of a Feature that has a [type] and whose geometry is
    a mapping, or is empty or None, decodes to the document of the
    Feature, with an empty object for a geometry that is not true. *)
Theorem Feature_str_loads (self : gmap string pyval) g :
  self !! "geometry" = Some g → is_Some (self !! "type") →
  is_dict g = true ∨ truthy g = false →
  ∃ s, Feature_str self = Ok s ∧ solid s ∧
       loads s = Some (to_plain (PDict FeatureClass
                                   (<["geometry" := py_or g (PDict Dict ∅)]> self))).
Proof.
  intros Hgeom Hty Hg. unfold py_or. destruct (truthy g) eqn:Htrue.
  - destruct Hg as [Hd|?]; [|done].
    exists (dumps (PDict FeatureClass self)).
    split; [by apply (Feature_text_dumped self g)|].
    split; [apply dumps_solid|].
    by rewrite loads_dumps, insert_id.
  - destruct (Feature_text_spliced self g Hgeom Htrue Hty) as (s & Hs & Hsolid & Hl).
    exists s. split; [done|]. split; [done|]. rewrite Hl.
    change (to_plain (PDict FeatureClass ?m)) with (PDict Dict (to_plain <$> m)).
    by rewrite fmap_insert, to_plain_empty.
Qed.

Lemma Feature_str_loads_witness :
  ∃ s, Feature_str (point_feature 1 2 "a") = Ok s ∧ solid s ∧
       loads s = Some (to_plain (PDict FeatureClass
                                   (<["geometry" := py_or (point 1 2) (PDict Dict ∅)]>
                                      (point_feature 1 2 "a")))).
Proof.
  apply (Feature_str_loads (point_feature 1 2 "a") (point 1 2));
    [reflexivity|by eexists|by left].
Defined.

(** X22: the text of a FeatureCollection that has a [type] and whose
    [features] are a list or tuple of Features, each with a [type] and a
    mapping for geometry, decodes to the document of the collection,
    though the features are written each by its own [__str__] and joined
    without white space. *)
Theorem FeatureCollection_str_loads (self : gmap string pyval) v fs :
  self !! "features" = Some v → v = PList fs ∨ v = PTuple fs →
  is_Some (self !! "type") → Forall structured fs →
  ∃ s, FeatureCollection_str self = Ok s ∧
       loads s = Some (to_plain (PDict FeatureCollectionClass self)).
Proof.
  intros Hfs Hv Hty Hall.
  destruct (structured_texts fs Hall) as (Ts & HTs & Hdocs).
  assert (iter v = Ok fs) as Hiter by (by destruct Hv as [-> | ->]).
  pose proof (other_keys "features" "type" self ltac:(done) Hty) as Hne.
  eexists. split; [exact (FeatureCollection_text self v fs Ts Hfs Hiter HTs)|].
  rewrite (loads_collection _ Ts (to_plain <$> fs) Hne Hdocs).
  f_equal. by apply (collection_document self v fs).
Qed.

Lemma FeatureCollection_str_loads_witness :
  ∃ s, FeatureCollection_str two_points = Ok s ∧
       loads s = Some (to_plain (PDict FeatureCollectionClass two_points)).
Proof.
  apply (FeatureCollection_str_loads two_points
           (PList [PDict FeatureClass (point_feature 1 2 "a");
                   PDict FeatureClass (point_feature 3 4 "b")])
           [PDict FeatureClass (point_feature 1 2 "a");
            PDict FeatureClass (point_feature 3 4 "b")]);
    [reflexivity|by left|by eexists|].
  repeat constructor; eexists _, _; (split; [reflexivity|]);
    (split; [reflexivity|]); (split; [reflexivity|by eexists]).
Defined.

Lemma Feature_init_plain_geometry d :
  plain_kwargs d →
  ∃ self, Feature_init d = Ok (PDict FeatureClass self) ∧
    self !! "geometry" = Some (py_or (arg d "geometry" PNone) (PDict Dict ∅)) ∧
    is_Some (self !! "type").
Proof.
  intros Hplain. rewrite (Feature_init_plain_value d Hplain).
  eexists. split; [done|]. split.
  - rewrite lookup_union, rest_args_lookup.
    rewrite bool_decide_eq_true_2 by (by apply (bool_decide_unpack _)).
    rewrite !lookup_insert_ne by done. by rewrite lookup_insert_eq.
  - rewrite lookup_union_is_Some. right.
    rewrite !lookup_insert_ne by done. by rewrite lookup_insert_eq.
Qed.

Lemma plain_structured d :
  plain_kwargs d →
  (truthy (arg d "geometry" PNone) = true →
   is_dict (arg d "geometry" PNone) = true) →
  ∃ self, Feature_init d = Ok (PDict FeatureClass self) ∧
          structured (PDict FeatureClass self).
Proof.
  intros Hplain Hgeom.
  destruct (Feature_init_plain_geometry d Hplain) as (self & Hinit & Hg & Hty).
  exists self. split; [done|]. eexists self, _. split; [done|].
  split; [exact Hg|]. split; [|done].
  unfold py_or. destruct (truthy _) eqn:Htrue; [by apply Hgeom|done].
Qed.

(** X23: the constructor and the serializer, together.  For keyword
    arguments that are data, with a mapping or nothing true for geometry,
    the Feature is made, its text is written, and the text decodes to the
    document of the Feature. *)
Theorem constructed_feature_round_trip d :
  plain_kwargs d →
  (truthy (arg d "geometry" PNone) = true →
   is_dict (arg d "geometry" PNone) = true) →
  ∃ self s, Feature_init d = Ok (PDict FeatureClass self) ∧
            Feature_str self = Ok s ∧
            loads s = Some (to_plain (PDict FeatureClass self)).
Proof.
  intros Hplain Hgeom.
  destruct (plain_structured d Hplain Hgeom) as (self & Hinit & Hstr).
  destruct (structured_text _ Hstr) as (s & Hs & _ & Hl).
  by exists self, s.
Qed.

Lemma constructed_feature_round_trip_witness :
  ∃ self s,
    Feature_init {[ "geometry" := point 1 2; "properties" := PNone ]}
      = Ok (PDict FeatureClass self) ∧
    Feature_str self = Ok s ∧
    loads s = Some (to_plain (PDict FeatureClass self)).
Proof.
  apply (constructed_feature_round_trip
           {[ "geometry" := point 1 2; "properties" := PNone ]}).
  - repeat split; reflexivity.
  - reflexivity.
Defined.

Lemma raw_structured_features S :
  Forall raw_structured S →
  ∃ fs, mapM (call_kwargs Feature_init) S = Ok fs ∧ Forall structured fs.
Proof.
  induction 1 as [|x S (_ & c & d & -> & Hplain & Hgeom) _ (fs & Hfs & Hall)];
    [by exists []|].
  destruct (plain_structured d Hplain Hgeom) as (self & Hinit & Hstr).
  exists (PDict FeatureClass self :: fs). split; [|by constructor].
  cbn [mapM call_kwargs]. rewrite Hinit. simpl. by rewrite Hfs.
Qed.

(** X24: coercion and serialization, together.  A list of raw
    feature-like mappings, each with a mapping or nothing true for
    geometry, is coerced to a FeatureCollection whose text is written and
    decodes to the document of the collection: every Feature of it is
    there, in order. *)
Theorem coerced_collection_round_trip S :
  Forall raw_structured S →
  ∃ self s, as_feature (PList S) = Ok (PDict FeatureCollectionClass self) ∧
            FeatureCollection_str self = Ok s ∧
            loads s = Some (to_plain (PDict FeatureCollectionClass self)).
Proof.
  intros Hraw.
  assert (Forall (λ x, is_dict x = true) S) as Hdicts.
  { eapply Forall_impl; [exact Hraw|]. by intros x (_ & c & d & -> & _). }
  destruct (raw_structured_features S Hraw) as (fs & Hfs & Hall).
  assert (features_value (PList S) = Ok (PList fs)) as Hval.
  { unfold features_value. destruct S as [|x S'].
    { injection Hfs as <-. reflexivity. }
    apply Forall_cons in Hraw as [(Hx & c & d & -> & _) _].
    assert (is_Feature (PDict c d) = false) as Hnf by (by destruct c).
    cbn [truthy length Nat.eqb negb getitem0 mbind result_bind].
    rewrite Hnf. cbn [negb iter mbind result_bind]. by rewrite Hfs. }
  assert (as_feature (PList S) = Ok (collection_of (PList fs))) as Hrun.
  { unfold as_feature, is_featurelike, has_features. simpl.
    rewrite !(dicts_no_string _ S) by done. simpl.
    by rewrite FeatureCollection_init_features, Hval. }
  destruct (structured_texts fs Hall) as (Ts & HTs & Hdocs).
  unfold collection_of in Hrun.
  set (self := <["features" := PList fs]> {["type" := PStr "FeatureCollection"]})
    in *.
  assert (self !! "features" = Some (PList fs)) as Hlook by apply lookup_insert_eq.
  assert (is_Some (self !! "type")) as Hty.
  { unfold self. rewrite lookup_insert_ne by done. by rewrite lookup_singleton_eq. }
  pose proof (other_keys "features" "type" self ltac:(done) Hty) as Hne.
  exists self. eexists. split; [exact Hrun|].
  split; [exact (FeatureCollection_text self (PList fs) fs Ts Hlook eq_refl HTs)|].
  rewrite (loads_collection _ Ts (to_plain <$> fs) Hne Hdocs).
  by rewrite (collection_document self (PList fs) fs Hlook (or_introl eq_refl)).
Qed.

Lemma coerced_collection_round_trip_witness :
  ∃ self s, as_feature (PList raw_features) = Ok (PDict FeatureCollectionClass self) ∧
            FeatureCollection_str self = Ok s ∧
            loads s = Some (to_plain (PDict FeatureCollectionClass self)).
Proof.
  apply (coerced_collection_round_trip raw_features).
  repeat constructor; eexists _, _; (split; [reflexivity|]);
    (split; [repeat split; reflexivity|reflexivity]).
Defined.

End JsonMore.

(** * Properties of the form fields *)

Section FieldsSpec.
Import Fields.

Local Arguments String.append !_ _ / : simpl nomatch.

Lemma split_length sep s : length (split sep s) = S (count_char sep s).
Proof.
  induction s as [|c s IH]; simpl; [done|].
  destruct (c =? sep)%char; simpl; [by rewrite IH|].
  destruct (split sep s) as [|p ps]; simpl in *; [done|lia].
Qed.

Lemma split_cons sep s : ∃ p ps, split sep s = p :: ps.
Proof.
  destruct s as [|c s]; simpl; [by eexists _, _|].
  destruct (c =? sep)%char; [by eexists _, _|].
  destruct (split sep s); by eexists _, _.
Qed.

Lemma split_join sep s : Collections.join (String sep "") (split sep s) = s.
Proof.
  induction s as [|c s IH]; [done|].
  destruct (split_cons sep s) as (p & ps & Hs).
  cbn [split]. rewrite Hs in *.
  destruct (c =? sep)%char eqn:Hc.
  - apply Ascii.eqb_eq in Hc as ->.
    change (String sep (Collections.join (String sep "") (p :: ps)) = String sep s).
    by rewrite IH.
  - destruct ps as [|q ps]; [simpl in *; by subst|].
    change (String c (Collections.join (String sep "") (p :: q :: ps)) = String c s).
    by rewrite IH.
Qed.

Lemma split_pieces sep s : Forall (λ p, count_char sep p = 0%nat) (split sep s).
Proof.
  induction s as [|c s IH]; simpl; [by repeat constructor|].
  destruct (c =? sep)%char eqn:Hc; [by constructor|].
  destruct (split sep s) as [|p ps]; [repeat constructor; simpl; by rewrite Hc|].
  apply Forall_cons in IH as [Hp Hps]. constructor; [|done].
  simpl. by rewrite Hc.
Qed.

(** X25: when [CommaSepFloatField.to_python] returns on a value that is
    not empty, it returns one number for each piece between the commas of
    the value, in order: one more number than there are commas; the
    pieces hold no comma, and joined by commas they give the value
    back. *)
Theorem CommaSepFloatField_to_python_pieces
    (number : Type) (to_python : string → result number) v l :
  v ≠ "" →
  CommaSepFloatField_to_python number to_python (Some v) = Ok l →
  length l = S (count_char "," v) ∧
  ∃ pieces, Collections.join "," pieces = v ∧
            Forall (λ p, count_char "," p = 0%nat) pieces ∧
            Forall2 (λ p x, to_python p = Ok x) pieces l.
Proof.
  intros Hv. unfold CommaSepFloatField_to_python.
  destruct v as [|c v]; [done|]. intros Hl.
  destruct (mapM_result_Ok _ _ _ Hl) as [Hlen Hnth].
  split; [by rewrite Hlen, split_length|].
  exists (split "," (String c v)). split; [apply split_join|].
  split; [apply split_pieces|].
  apply Forall2_same_length_lookup. split; [done|].
  intros i p x Hp Hx. destruct (Hnth i p Hp) as (y & Hy & Hpy). congruence.
Qed.

Lemma CommaSepFloatField_to_python_pieces_witness :
  length [1; 2; 3; 4]%Z = S (count_char "," "1,2,3,4") ∧
  ∃ pieces, Collections.join "," pieces = "1,2,3,4" ∧
            Forall (λ p, count_char "," p = 0%nat) pieces ∧
            Forall2 (λ p x, read_int p = Ok x) pieces [1; 2; 3; 4]%Z.
Proof.
  apply (CommaSepFloatField_to_python_pieces Z read_int "1,2,3,4" [1; 2; 3; 4]%Z);
    [discriminate|reflexivity].
Defined.



(** X27: the errors of [BoundingBoxField.to_python].  An error raised
    while the numbers are read comes through, a ValueError too: only the
    making of the bounding box is guarded.  A polygon that the field
    returns is the bounding box of the numbers read, with the srid of the
    field; and an error raised by the making of the box comes through
    only if it is neither ValueError nor AttributeError. *)
Theorem BoundingBoxField_to_python_outcome
    (number : Type) (to_python : string → result number)
    (from_bbox : list number → result Carto.Geometry)
    (with_srid : Carto.Geometry → Z → Carto.Geometry) srid value :
  (∀ e, CommaSepFloatField_to_python number to_python value = Raise e →
        BoundingBoxField_to_python number to_python from_bbox with_srid srid value
          = Raise e) ∧
  (∀ b, BoundingBoxField_to_python number to_python from_bbox with_srid srid value
          = Ok (Carto.BBoxGeom b) →
        ∃ vals g, CommaSepFloatField_to_python number to_python value = Ok vals ∧
                  from_bbox vals = Ok g ∧ b = with_srid g srid) ∧
  (∀ e, BoundingBoxField_to_python number to_python from_bbox with_srid srid value
          = Raise e →
        CommaSepFloatField_to_python number to_python value = Raise e ∨
        (e ≠ ValueError ∧ e ≠ AttributeError)).
Proof.
  unfold BoundingBoxField_to_python.
  destruct (CommaSepFloatField_to_python _ _ _) as [vals|e0]; simpl.
  - split; [done|]. split.
    + intros b. destruct (from_bbox vals) as [g|[]] eqn:Hg; try done.
      intros [= <-]. eauto.
    + intros e. destruct (from_bbox vals) as [g|[]]; try done;
        intros [= <-]; right; done.
  - split; [by intros e [= <-]|]. split; [intros b H; discriminate H|].
    intros e [= <-]. by left.
Qed.

End FieldsSpec.
